(** * Simulated annealing for the 0/1 knapsack problem

    A shallow embedding of [SimulatedAnnealing.py] and the properties of its
    search loop.

    Conventions of the embedding.
    - Python [int] is [Z]; a list of ints is [list Z]; list positions that
      come from [range] are [nat].
    - Python [float] is an ideal real number ([R]): the temperature, the
      cooling rate and the acceptance probability are computed without
      rounding, overflow or underflow.  The profit/weight ratio that only
      serves as a sort key is an exact rational ([Q]).
    - The object [self] and the generator of the [random] module form the
      mutable [world]; a method is a function [world -> outcome * world], and
      the world survives an exception, as it does in Python.
    - The generator is a stream of raw integers; [randint], [choice] and
      [random] map the next raw integer into their range, so that every value
      of the range is produced by some stream.
    - [while] loops take a bound on the number of condition checks and yield
      [OutOfFuel] when it is exhausted; termination is proved by showing that
      some bound is enough. *)

From Stdlib Require Import ZArith List Bool Lia QArith Reals Lra Permutation Sorted.
From Stdlib Require Floats.
Import ListNotations.
Open Scope Z_scope.

(** ** Outcomes and the world *)

Inductive exn : Type :=
| ZeroDivisionError
| ValueError
| IndexError
| TypeError
| AttributeError
| OverflowError.

Inductive outcome (A : Type) : Type :=
| Ok (a : A)
| Raise (e : exn)
| OutOfFuel.

Arguments Ok {A} a.
Arguments Raise {A} e.
Arguments OutOfFuel {A}.

(** The stream of raw draws of the [random] module. *)
Definition rng : Type := nat -> Z.

(** The attributes of a [SimulatedAnnealing] object.  [name] and [solution]
    are never read by the methods below and are left out; [amount] does not
    exist before [read_file] creates it. *)
Record SimulatedAnnealing : Type := mkSA {
  temperature : option R;
  cooling_rate : R;
  iter_max : Z;
  T_min : R;
  no_improve_limit : Z;
  neighbors_amount : Z;
  best_solutions_vector : list (list Z);
  best_cost_vector : list Z;
  capacity : option Z;
  amount : option Z;
  profit : option (list Z);
  weight : option (list Z)
}.

(** [acceptance_log] is a specification-only trace: [check_acceptance]
    appends the temperature it was entered with.  No code reads it. *)
Record world : Type := mkWorld {
  self : SimulatedAnnealing;
  random_state : rng;
  acceptance_log : list R
}.

(** Sequencing of pure computations that may raise. *)
Definition obind {A B : Type} (o : outcome A) (k : A -> outcome B) : outcome B :=
  match o with
  | Ok a => k a
  | Raise e => Raise e
  | OutOfFuel => OutOfFuel
  end.

Definition M (A : Type) : Type := world -> outcome A * world.

Definition ret {A : Type} (a : A) : M A := fun w => (Ok a, w).

Definition raise {A : Type} (e : exn) : M A := fun w => (Raise e, w).

Definition diverge {A : Type} : M A := fun w => (OutOfFuel, w).

Definition bind {A B : Type} (m : M A) (k : A -> M B) : M B :=
  fun w =>
    match m w with
    | (Ok a, w') => k a w'
    | (Raise e, w') => (Raise e, w')
    | (OutOfFuel, w') => (OutOfFuel, w')
    end.

Declare Scope py_scope.
Delimit Scope py_scope with py.
Notation "x <- m ;; k" := (bind m (fun x => k))
  (at level 61, m at next level, right associativity) : py_scope.
Notation "m ;;; k" := (bind m (fun _ => k))
  (at level 61, right associativity) : py_scope.
Open Scope py_scope.

(** A pure computation that may raise. *)
Definition lift {A : Type} (o : outcome A) : M A := fun w => (o, w).

Definition get_self : M SimulatedAnnealing := fun w => (Ok (self w), w).

(** Reading an attribute that still holds [None] and using it as a number or
    a list raises [TypeError]; reading [amount] before it exists raises
    [AttributeError]. *)
Definition attr {A : Type} (f : SimulatedAnnealing -> option A) (e : exn) : M A :=
  fun w => match f (self w) with
           | Some a => (Ok a, w)
           | None => (Raise e, w)
           end.

Definition get_capacity : M Z := attr capacity TypeError.
Definition get_amount : M Z := attr amount AttributeError.
Definition get_profit : M (list Z) := attr profit TypeError.
Definition get_weight : M (list Z) := attr weight TypeError.
Definition get_temperature : M R := attr temperature TypeError.

Definition set_temperature (t : R) (s : SimulatedAnnealing) : SimulatedAnnealing :=
  mkSA (Some t) (cooling_rate s) (iter_max s) (T_min s) (no_improve_limit s)
       (neighbors_amount s) (best_solutions_vector s) (best_cost_vector s)
       (capacity s) (amount s) (profit s) (weight s).

Definition set_neighbors_amount (k : Z) (s : SimulatedAnnealing) : SimulatedAnnealing :=
  mkSA (temperature s) (cooling_rate s) (iter_max s) (T_min s) (no_improve_limit s)
       k (best_solutions_vector s) (best_cost_vector s)
       (capacity s) (amount s) (profit s) (weight s).

Definition set_instance (c n : Z) (p wt : list Z) (s : SimulatedAnnealing)
  : SimulatedAnnealing :=
  mkSA (temperature s) (cooling_rate s) (iter_max s) (T_min s) (no_improve_limit s)
       (neighbors_amount s) (best_solutions_vector s) (best_cost_vector s)
       (Some c) (Some n) (Some p) (Some wt).

Definition record_best (sol : list Z) (c : Z) (s : SimulatedAnnealing)
  : SimulatedAnnealing :=
  mkSA (temperature s) (cooling_rate s) (iter_max s) (T_min s) (no_improve_limit s)
       (neighbors_amount s) (best_solutions_vector s ++ [sol]) (best_cost_vector s ++ [c])
       (capacity s) (amount s) (profit s) (weight s).

Definition modify_self (f : SimulatedAnnealing -> SimulatedAnnealing) : M unit :=
  fun w => (Ok tt, mkWorld (f (self w)) (random_state w) (acceptance_log w)).

(** ** Lists as Python uses them *)

Definition len {A : Type} (l : list A) : Z := Z.of_nat (length l).

(** [l[i]] for a position [i >= 0]. *)
Definition getitem {A : Type} (l : list A) (i : nat) : outcome A :=
  match nth_error l i with
  | Some a => Ok a
  | None => Raise IndexError
  end.

(** [l[i] = v] for a position [i >= 0]. *)
Fixpoint setitem {A : Type} (l : list A) (i : nat) (v : A) : outcome (list A) :=
  match l, i with
  | [], _ => Raise IndexError
  | _ :: t, O => Ok (v :: t)
  | h :: t, S j => obind (setitem t j v) (fun t' => Ok (h :: t'))
  end.

(** [sum(xs[i] * ys[i] for i in range(len(xs)))]: the generator visits the
    positions of [xs] in order and raises at the first one [ys] lacks. *)
Fixpoint sum_products_over (xs ys : list Z) (positions : list nat)
  : outcome Z :=
  match positions with
  | [] => Ok 0
  | j :: rest =>
      obind (getitem xs j) (fun x =>
      obind (getitem ys j) (fun y =>
      obind (sum_products_over xs ys rest) (fun s =>
      Ok (x * y + s))))
  end.

Definition sum_products (xs ys : list Z) : outcome Z :=
  sum_products_over xs ys (seq 0 (length xs)).

(** ** The random module *)

Definition next_raw : M Z :=
  fun w => (Ok (random_state w 0%nat),
            mkWorld (self w) (fun k => random_state w (S k)) (acceptance_log w)).

(** [random.randint(a, b)]: an empty range raises before any draw. *)
Definition randint (a b : Z) : M Z :=
  if b <? a then raise ValueError
  else r <- next_raw ;; ret (a + r mod (b - a + 1)).

(** [random.choice(seq)]. *)
Definition choice {A : Type} (l : list A) : M A :=
  match l with
  | [] => raise IndexError
  | _ :: _ => r <- next_raw ;; lift (getitem l (Z.to_nat (r mod len l)))
  end.

(** [random.random()]: a multiple of 2^-53 in [0, 1). *)
Definition random : M R :=
  r <- next_raw ;; ret (IZR (r mod 2 ^ 53) / IZR (2 ^ 53))%R.

(** ** The methods of [SimulatedAnnealing] *)

(** [__init__]: stores its arguments; nothing is checked. *)
Definition __init__ (cooling_rate0 : R) (iter_max0 : Z) (T_min0 : R)
  (no_improve_limit0 : Z) : SimulatedAnnealing :=
  mkSA None cooling_rate0 iter_max0 T_min0 no_improve_limit0
       0 [] [] None None None None.

(** The object [SimulatedAnnealing(...)] in a process whose generator is [g]. *)
Definition construct (cooling_rate0 : R) (iter_max0 : Z) (T_min0 : R)
  (no_improve_limit0 : Z) (g : rng) : outcome unit * world :=
  (Ok tt, mkWorld (__init__ cooling_rate0 iter_max0 T_min0 no_improve_limit0) g []).

(** [SimulatedAnnealing()] with the default arguments. *)
Definition default_world (g : rng) : world :=
  snd (construct (2 / 100)%R 100 (1 / 1000)%R 10 g).

(** The three lines of an instance file, already parsed by [int]. *)
Record instance_file : Type := mkFile {
  file_capacity : Z;
  file_profit : list Z;
  file_weight : list Z
}.

(** [read_file]: listing the directory, the prompt and the printing are
    left out; the attributes are assigned before the lengths are compared. *)
Definition read_file (f : instance_file) : M (Z * Z * list Z * list Z) :=
  modify_self (set_instance (file_capacity f) (len (file_profit f))
                            (file_profit f) (file_weight f)) ;;;
  if negb (len (file_profit f) =? len (file_weight f)) then raise ValueError
  else ret (file_capacity f, len (file_profit f), file_profit f, file_weight f).

(** The sort key [self.profit[i] / self.weight[i]]. *)
Definition ratio_key (i : nat) : M Q :=
  p <- get_profit ;;
  pi <- lift (getitem p i) ;;
  wt <- get_weight ;;
  wi <- lift (getitem wt i) ;;
  if wi =? 0 then raise ZeroDivisionError
  else ret (inject_Z pi / inject_Z wi)%Q.

(** [sorted] computes the key of every element, in order, before it sorts. *)
Fixpoint keyed (positions : list nat) : M (list (nat * Q)) :=
  match positions with
  | [] => ret []
  | i :: rest =>
      k <- ratio_key i ;;
      ks <- keyed rest ;;
      ret ((i, k) :: ks)
  end.

(** Stable insertion for a descending order: an element goes in front of
    the first one whose key is not larger, so that equal keys keep their
    original order, as [sorted(..., reverse=True)] does. *)
Fixpoint insert_desc (x : nat * Q) (l : list (nat * Q)) : list (nat * Q) :=
  match l with
  | [] => [x]
  | y :: t => if Qle_bool (snd y) (snd x) then x :: y :: t
              else y :: insert_desc x t
  end.

Definition sorted_desc (l : list (nat * Q)) : list (nat * Q) :=
  fold_right insert_desc [] l.

(** The loop [for i in items] of [generate_initial_solution]. *)
Fixpoint greedy (items : list nat) (solution : list Z) (weight0 : Z) : M (list Z) :=
  match items with
  | [] => ret solution
  | i :: rest =>
      wt <- get_weight ;;
      wi <- lift (getitem wt i) ;;
      c <- get_capacity ;;
      if weight0 + wi <=? c then
        solution' <- lift (setitem solution i 1) ;;
        greedy rest solution' (weight0 + wi)
      else greedy rest solution weight0
  end.

Definition generate_initial_solution : M (list Z) :=
  n <- get_amount ;;
  ks <- keyed (seq 0 (Z.to_nat n)) ;;
  let items := map fst (sorted_desc ks) in
  greedy items (repeat 0 (Z.to_nat n)) 0.

Definition calculate_cost (solution : list Z) : M Z :=
  p <- get_profit ;;
  lift (sum_products solution p).

(** [max(1, int(amount * 0.15))]: for a list length the float product
    truncates to the integer quotient of [15 * amount] by [100]. *)
Definition calculate_number_of_neighbors (amount0 : Z) : M unit :=
  modify_self (set_neighbors_amount (Z.max 1 (Z.quot (15 * amount0) 100))).

(** [[i for i in range(len(neighbor)) if neighbor[i] == 1]]. *)
Definition indices_of_ones (neighbor : list Z) : list nat :=
  filter (fun i => match nth_error neighbor i with
                   | Some x => x =? 1
                   | None => false
                   end)
         (seq 0 (length neighbor)).

(** The repair loop [while weight > self.capacity] of [generate_neighbors]. *)
Fixpoint repair (fuel : nat) (neighbor : list Z) (weight0 : Z) : M (list Z) :=
  match fuel with
  | O => diverge
  | S fuel' =>
      c <- get_capacity ;;
      if weight0 >? c then
        match indices_of_ones neighbor with
        | [] => ret neighbor
        | indices_1 =>
            i <- choice indices_1 ;;
            neighbor' <- lift (setitem neighbor i 0) ;;
            wt <- get_weight ;;
            wi <- lift (getitem wt i) ;;
            repair fuel' neighbor' (weight0 - wi)
        end
      else ret neighbor
  end.

(** One pass of the body of [for _ in range(self.neighbors_amount)]. *)
Definition perturb (fuel : nat) (solution : list Z) : M (list Z) :=
  i <- randint 0 (len solution - 1) ;;
  x <- lift (getitem solution (Z.to_nat i)) ;;
  neighbor <- lift (setitem solution (Z.to_nat i) (1 - x)) ;;
  wt <- get_weight ;;
  weight0 <- lift (sum_products neighbor wt) ;;
  repair fuel neighbor weight0.

Fixpoint collect_neighbors (fuel : nat) (count : nat) (solution : list Z)
  (neighbors : list (list Z)) : M (list (list Z)) :=
  match count with
  | O => ret neighbors
  | S count' =>
      neighbor <- perturb fuel solution ;;
      collect_neighbors fuel count' solution (neighbors ++ [neighbor])
  end.

Definition generate_neighbors (fuel : nat) (solution : list Z) : M (list (list Z)) :=
  s <- get_self ;;
  collect_neighbors fuel (Z.to_nat (neighbors_amount s)) solution [].

(** [[self.calculate_cost(neighbor) for neighbor in neighbors]]. *)
Fixpoint costs_of (neighbors : list (list Z)) : M (list Z) :=
  match neighbors with
  | [] => ret []
  | nb :: rest =>
      c <- calculate_cost nb ;;
      cs <- costs_of rest ;;
      ret (c :: cs)
  end.

Definition sumZ (l : list Z) : Z := fold_right Z.add 0 l.

Definition initial_temperature (fuel : nat) (solution : list Z) : M unit :=
  neighbors <- generate_neighbors fuel solution ;;
  neighbors_cost <- costs_of neighbors ;;
  match neighbors_cost with
  | [] => modify_self (set_temperature 1%R)
  | _ :: _ =>
      modify_self (set_temperature (IZR (sumZ neighbors_cost) / IZR (len neighbors_cost))%R)
  end.

(** Specification-only: note the temperature at which the acceptance
    criterion is entered. *)
Definition log_acceptance : M unit :=
  fun w => (Ok tt,
            mkWorld (self w) (random_state w)
                    (acceptance_log w ++ match temperature (self w) with
                                         | Some t => [t]
                                         | None => []
                                         end)).

Definition check_acceptance (cost new_cost : Z) : M bool :=
  log_acceptance ;;;
  if new_cost >? cost then ret true
  else
    t <- get_temperature ;;
    if Req_dec_T t 0 then raise ZeroDivisionError
    else
      let acceptance_probability := exp (IZR (new_cost - cost) / t) in
      u <- random ;;
      ret (if Rlt_dec u acceptance_probability then true else false).

(** [math.sqrt] raises [ValueError] below zero; a zero divisor raises
    [ZeroDivisionError]. *)
Definition cool (rate t : R) : R := (t / (1 + rate * sqrt t))%R.

Definition cooling : M R :=
  t <- get_temperature ;;
  s <- get_self ;;
  if Rlt_dec t 0 then raise ValueError
  else if Req_dec_T (1 + cooling_rate s * sqrt t)%R 0 then raise ZeroDivisionError
  else modify_self (set_temperature (cool (cooling_rate s) t)) ;;;
       ret (cool (cooling_rate s) t).

(** The local variables of [run]. *)
Record locals : Type := mkLocals {
  solution : list Z;
  cost : Z;
  best_solution : list Z;
  best_cost : Z;
  no_improve_count : Z
}.

(** The body of [for neighbor in neighbors]. *)
Definition visit (st : locals) (neighbor : list Z) : M locals :=
  new_cost <- calculate_cost neighbor ;;
  accepted <- check_acceptance (cost st) new_cost ;;
  if accepted : bool then
    if new_cost >? best_cost st then
      modify_self (record_best neighbor new_cost) ;;;
      ret (mkLocals neighbor new_cost neighbor new_cost 0)
    else
      ret (mkLocals neighbor new_cost (best_solution st) (best_cost st)
                    (no_improve_count st + 1))
  else ret st.

Fixpoint for_neighbors (neighbors : list (list Z)) (st : locals) : M locals :=
  match neighbors with
  | [] => ret st
  | nb :: rest => st' <- visit st nb ;; for_neighbors rest st'
  end.

(** [for _ in range(self.iter_max)]: a neighborhood, its visit, one cooling. *)
Fixpoint for_iterations (fuel : nat) (count : nat) (st : locals) : M locals :=
  match count with
  | O => ret st
  | S count' =>
      neighbors <- generate_neighbors fuel (solution st) ;;
      st' <- for_neighbors neighbors st ;;
      cooling ;;;
      for_iterations fuel count' st'
  end.

(** The outer [while] of [run]; [passes] bounds its condition checks. *)
Fixpoint search (fuel : nat) (passes : nat) (best_solution0 : list Z)
  (best_cost0 : Z) (no_improve_count0 : Z) : M (list Z * Z) :=
  match passes with
  | O => diverge
  | S passes' =>
      t <- get_temperature ;;
      s <- get_self ;;
      if (if Rgt_dec t (T_min s) then true else false)
         && (no_improve_count0 <? no_improve_limit s)
      then
        st <- for_iterations fuel (Z.to_nat (iter_max s))
                (mkLocals best_solution0 best_cost0 best_solution0 best_cost0
                          no_improve_count0) ;;
        search fuel passes' (best_solution st) (best_cost st) (no_improve_count st)
      else ret (best_solution0, best_cost0)
  end.

Definition run (fuel : nat) (f : instance_file) : M (list Z * Z) :=
  inst <- read_file f ;;
  let '(_, n, _, _) := inst in
  calculate_number_of_neighbors n ;;;
  best_solution0 <- generate_initial_solution ;;
  initial_temperature fuel best_solution0 ;;;
  best_cost0 <- calculate_cost best_solution0 ;;
  search fuel fuel best_solution0 best_cost0 0.

(** Feasibility: the selected weights fit the capacity. *)
Definition feasible (c : Z) (wt solution0 : list Z) : bool :=
  match sum_products solution0 wt with
  | Ok t => t <=? c
  | _ => false
  end.

Definition binary (solution0 : list Z) : Prop :=
  Forall (fun x => x = 0 \/ x = 1) solution0.

(** ** Specification vocabulary *)

(** The sum of the pointwise products, on the common prefix. *)
Fixpoint dot (xs ys : list Z) : Z :=
  match xs, ys with
  | x :: xs', y :: ys' => x * y + dot xs' ys'
  | _, _ => 0
  end.

(** [wp m Q w]: running [m] from [w] ends in an outcome and a world that
    satisfy [Q]. *)
Definition wp {A : Type} (m : M A) (Q : outcome A -> world -> Prop) (w : world) : Prop :=
  Q (fst (m w)) (snd (m w)).

(** What the search never assigns: the configuration, the size of a
    neighborhood and the instance. *)
Definition frozen (s : SimulatedAnnealing)
  : R * Z * R * Z * Z * option Z * option Z * option (list Z) * option (list Z) :=
  (cooling_rate s, iter_max s, T_min s, no_improve_limit s, neighbors_amount s,
   capacity s, amount s, profit s, weight s).

(** The instance [(c, p, wt)] has been read. *)
Definition loaded (c : Z) (p wt : list Z) (s : SimulatedAnnealing) : Prop :=
  capacity s = Some c /\ amount s = Some (len p) /\ profit s = Some p
  /\ weight s = Some wt.

(** Only the generator advanced between two worlds. *)
Definition only_rng (w w' : world) : Prop :=
  self w' = self w /\ acceptance_log w' = acceptance_log w.

(** A solution of the instance: binary, of the instance's length, and within
    the capacity whenever the capacity is not negative. *)
Definition admissible (c : Z) (wt nb : list Z) : Prop :=
  binary nb /\ length nb = length wt /\ (0 <= c -> dot nb wt <= c).

(** The invariant of the local variables of [run]. *)
Definition consistent (c : Z) (p wt : list Z) (st : locals) : Prop :=
  admissible c wt (solution st) /\ admissible c wt (best_solution st)
  /\ dot (solution st) p = cost st /\ dot (best_solution st) p = best_cost st
  /\ cost st <= best_cost st.

(** The configuration given to [__init__]. *)
Definition config (s : SimulatedAnnealing) : R * Z * R * Z :=
  (cooling_rate s, iter_max s, T_min s, no_improve_limit s).

(** No neighborhood has a larger mean cost. *)
Definition temperature_bound (p : list Z) : R :=
  Rmax 1 (IZR (sumZ (map Z.abs p))).

(** ** Concrete inputs *)

(** A generator whose raw draws alternate 1, 0, 1, 0, ... *)
Definition alternating : rng := fun k => if Nat.even k then 1 else 0.

(** Two items of profit 5 and weight 1 for a knapsack of capacity 1. *)
Definition twin_items : instance_file := mkFile 1 [5; 5] [1; 1].

(** One item of weight zero. *)
Definition weightless_item : instance_file := mkFile 10 [5] [0].

(** An object with one inner iteration and a stagnation limit of one. *)
Definition one_pass_world : world :=
  snd (construct (2 / 100)%R 1 (1 / 1000)%R 1 alternating).

(** An object whose cooling rate, temperature floor and stagnation limit are
    all zero. *)
Definition unchecked_world : world := snd (construct 0%R 1 0%R 0 alternating).

(** [twin_items] read into an object whose temperature is 5. *)
Definition warm_world : world :=
  mkWorld (set_temperature 5%R (self (snd (read_file twin_items one_pass_world))))
          alternating [].

(** ** Vocabulary of the further properties *)

(** A computation that, whatever it returns, leaves the object and the log
    as they were: it may only advance the generator. *)
Definition quiet {A : Type} (m : M A) : Prop :=
  forall w : world, only_rng w (snd (m w)).

(** The first statements of [run]: the instance is read, the size of a
    neighborhood is set and the initial solution is built. *)
Definition initial_solution_of (f : instance_file) : M (list Z) :=
  inst <- read_file f ;;
  let '(_, n, _, _) := inst in
  calculate_number_of_neighbors n ;;;
  generate_initial_solution.


(** The improvements recorded since the search started from [sol0] of cost
    [c0], with [sols0] and [costs0] already in the two vectors: the recorded
    costs increase strictly, each recorded solution has its recorded cost,
    and the best pair is the last one recorded, or the start if none was. *)
Definition trace_extends (p sol0 : list Z) (c0 : Z) (sols0 : list (list Z))
  (costs0 : list Z) (st : locals) (s : SimulatedAnnealing) : Prop :=
  profit s = Some p
  /\ c0 <= best_cost st
  /\ exists (sols : list (list Z)) (costs : list Z),
      best_solutions_vector s = sols0 ++ sols
      /\ best_cost_vector s = costs0 ++ costs
      /\ length sols = length costs
      /\ StronglySorted Z.lt costs
      /\ Forall (fun x => c0 < x <= best_cost st) costs
      /\ Forall2 (fun sol x => sum_products sol p = Ok x) sols costs
      /\ last (combine sols costs) (sol0, c0) = (best_solution st, best_cost st).

(** An object without inner iterations, at temperature 5. *)
Definition idle_world : world :=
  mkWorld (set_temperature 5%R (__init__ (2 / 100)%R 0 (1 / 1000)%R 10)) alternating [].

(** [warm_world] one degree warmer. *)
Definition warmer_world : world :=
  mkWorld (set_temperature 6%R (self warm_world)) alternating [].

(** [warm_world] with the temperature at zero. *)
Definition frozen_world : world :=
  mkWorld (set_temperature 0%R (self warm_world)) alternating [].




(** An instance file with two profits and one weight. *)
Definition lopsided_items : instance_file := mkFile 1 [5; 5] [1].

(** [twin_items] read into a fresh object. *)
Definition twin_world : world := snd (read_file twin_items one_pass_world).

(** Two items that fit together into a knapsack of capacity 2. *)
Definition roomy_items : instance_file := mkFile 2 [5; 5] [1; 1].

(** Two items, each heavier than the capacity 1. *)
Definition heavy_items : instance_file := mkFile 1 [5; 5] [2; 3].

(** [twin_items] read into an object whose neighborhoods hold one neighbor. *)
Definition neighborly_world : world :=
  snd (calculate_number_of_neighbors 2 twin_world).

(** * The program in binary64 arithmetic

    The definitions above compute temperatures, keys, means and
    probabilities in exact arithmetic, which is enough for the properties of
    selections and costs.  This module embeds the same methods with the
    arithmetic CPython performs: a [float] is an IEEE 754 binary64 number
    (Rocq's primitive [float], rounded to nearest, ties to even), [int / int]
    is the correctly rounded quotient, an [int] that meets a [float] is
    converted first, and the operations raise where CPython raises
    ([ZeroDivisionError] for a zero divisor, [OverflowError] for an [int] or
    a quotient beyond the range, [ValueError] for the square root of a
    negative number).  Overflow and underflow of [*], [+] and [/] on floats
    yield an infinity or a zero, as in CPython.

    [math.exp] is the [exp] of the C library, which differs between
    platforms in the last place; it is the parameter [libm_exp].  Its values
    at zeros, infinities and NaN are fixed by IEC 60559 and do not go
    through the parameter.

    Lists, integers, the generator and the local variables of [run] are
    those of the first part. *)

Module Binary64.

Import PrimFloat SpecFloat FloatOps.
#[local] Set Warnings "-inexact-float".
#[local] Open Scope float_scope.
#[local] Open Scope Z_scope.

Record SimulatedAnnealing : Type := mkSA {
  temperature : option float;
  cooling_rate : float;
  iter_max : Z;
  T_min : float;
  no_improve_limit : Z;
  neighbors_amount : Z;
  best_solutions_vector : list (list Z);
  best_cost_vector : list Z;
  capacity : option Z;
  amount : option Z;
  profit : option (list Z);
  weight : option (list Z)
}.

(** [acceptance_log] is specification-only, as in the first part. *)
Record world : Type := mkWorld {
  self : SimulatedAnnealing;
  random_state : rng;
  acceptance_log : list float
}.

Definition M (A : Type) : Type := world -> outcome A * world.

Definition ret {A : Type} (a : A) : M A := fun w => (Ok a, w).

Definition raise {A : Type} (e : exn) : M A := fun w => (Raise e, w).

Definition diverge {A : Type} : M A := fun w => (OutOfFuel, w).

Definition bind {A B : Type} (m : M A) (k : A -> M B) : M B :=
  fun w =>
    match m w with
    | (Ok a, w') => k a w'
    | (Raise e, w') => (Raise e, w')
    | (OutOfFuel, w') => (OutOfFuel, w')
    end.

Declare Scope py64_scope.
Notation "x <- m ;; k" := (bind m (fun x => k))
  (at level 61, m at next level, right associativity) : py64_scope.
Notation "m ;;; k" := (bind m (fun _ => k))
  (at level 61, right associativity) : py64_scope.
#[local] Open Scope py64_scope.

Definition lift {A : Type} (o : outcome A) : M A := fun w => (o, w).

Definition get_self : M SimulatedAnnealing := fun w => (Ok (self w), w).

Definition attr {A : Type} (f : SimulatedAnnealing -> option A) (e : exn) : M A :=
  fun w => match f (self w) with
           | Some a => (Ok a, w)
           | None => (Raise e, w)
           end.

Definition get_capacity : M Z := attr capacity TypeError.
Definition get_amount : M Z := attr amount AttributeError.
Definition get_profit : M (list Z) := attr profit TypeError.
Definition get_weight : M (list Z) := attr weight TypeError.
Definition get_temperature : M float := attr temperature TypeError.

Definition set_temperature (t : float) (s : SimulatedAnnealing) : SimulatedAnnealing :=
  mkSA (Some t) (cooling_rate s) (iter_max s) (T_min s) (no_improve_limit s)
       (neighbors_amount s) (best_solutions_vector s) (best_cost_vector s)
       (capacity s) (amount s) (profit s) (weight s).

Definition set_neighbors_amount (k : Z) (s : SimulatedAnnealing) : SimulatedAnnealing :=
  mkSA (temperature s) (cooling_rate s) (iter_max s) (T_min s) (no_improve_limit s)
       k (best_solutions_vector s) (best_cost_vector s)
       (capacity s) (amount s) (profit s) (weight s).

Definition set_instance (c n : Z) (p wt : list Z) (s : SimulatedAnnealing)
  : SimulatedAnnealing :=
  mkSA (temperature s) (cooling_rate s) (iter_max s) (T_min s) (no_improve_limit s)
       (neighbors_amount s) (best_solutions_vector s) (best_cost_vector s)
       (Some c) (Some n) (Some p) (Some wt).

Definition record_best (sol : list Z) (c : Z) (s : SimulatedAnnealing)
  : SimulatedAnnealing :=
  mkSA (temperature s) (cooling_rate s) (iter_max s) (T_min s) (no_improve_limit s)
       (neighbors_amount s) (best_solutions_vector s ++ [sol]) (best_cost_vector s ++ [c])
       (capacity s) (amount s) (profit s) (weight s).

Definition modify_self (f : SimulatedAnnealing -> SimulatedAnnealing) : M unit :=
  fun w => (Ok tt, mkWorld (f (self w)) (random_state w) (acceptance_log w)).

(** ** The arithmetic of CPython *)

(** An integer as an unrounded binary number. *)
Definition exact (z : Z) : spec_float :=
  match z with
  | Z0 => S754_zero false
  | Zpos m => S754_finite false m 0
  | Zneg m => S754_finite true m 0
  end.

(** A rounded result as a [float]; an infinity here is an overflow. *)
Definition rounded (x : spec_float) : outcome float :=
  match x with
  | S754_infinity _ => Raise OverflowError
  | _ => Ok (SF2Prim x)
  end.

(** [float(z)], also the implicit conversion of an [int] operand. *)
Definition float_of_int (z : Z) : outcome float :=
  rounded (binary_normalize prec emax z 0 false).

(** [a / b] on two [int]s: the exact quotient, rounded once. *)
Definition int_truediv (a b : Z) : outcome float :=
  if (b =? 0)%Z then Raise ZeroDivisionError
  else rounded (SFdiv prec emax (exact a) (exact b)).

(** [x / y] on two [float]s. *)
Definition float_truediv (x y : float) : outcome float :=
  if (y =? 0)%float then Raise ZeroDivisionError else Ok (x / y)%float.

(** [math.sqrt]. *)
Definition math_sqrt (x : float) : outcome float :=
  if (x <? 0)%float then Raise ValueError else Ok (sqrt x).

(** [int(x)]: truncation towards zero. *)
Definition int_of_float (x : float) : outcome Z :=
  match Prim2SF x with
  | S754_zero _ => Ok 0%Z
  | S754_infinity _ => Raise OverflowError
  | S754_nan => Raise ValueError
  | S754_finite s m e =>
      let n := match e with
               | Zneg k => Z.shiftr (Zpos m) (Zpos k)
               | _ => Z.shiftl (Zpos m) e
               end in
      Ok (if s then - n else n)%Z
  end.

Section Libm.

(** The C library's [exp]. *)
Variable libm_exp : float -> float.

(** [math.exp]: an infinite result of a finite argument is an
    [OverflowError]; an underflow to zero is not an error. *)
Definition math_exp (x : float) : outcome float :=
  if is_nan x then Ok x
  else if (x =? 0)%float then Ok 1%float
  else if (x =? infinity)%float then Ok infinity
  else if (x =? neg_infinity)%float then Ok 0%float
  else
    let r := libm_exp x in
    if is_nan r then Raise ValueError
    else if is_infinity r then Raise OverflowError
    else Ok r.

(** ** The random module *)

Definition next_raw : M Z :=
  fun w => (Ok (random_state w 0%nat),
            mkWorld (self w) (fun k => random_state w (S k)) (acceptance_log w)).

Definition randint (a b : Z) : M Z :=
  if (b <? a)%Z then raise ValueError
  else r <- next_raw ;; ret (a + r mod (b - a + 1))%Z.

Definition choice {A : Type} (l : list A) : M A :=
  match l with
  | [] => raise IndexError
  | _ :: _ => r <- next_raw ;; lift (getitem l (Z.to_nat (r mod len l)))
  end.

(** [random.random()]: the multiple [k * 2^-53] of the next raw draw, exact
    in binary64. *)
Definition random : M float :=
  r <- next_raw ;;
  ret (SF2Prim (binary_normalize prec emax (r mod 2 ^ 53) (-53) false)).

(** ** The methods of [SimulatedAnnealing] *)

Definition __init__ (cooling_rate0 : float) (iter_max0 : Z) (T_min0 : float)
  (no_improve_limit0 : Z) : SimulatedAnnealing :=
  mkSA None cooling_rate0 iter_max0 T_min0 no_improve_limit0
       0 [] [] None None None None.

Definition construct (cooling_rate0 : float) (iter_max0 : Z) (T_min0 : float)
  (no_improve_limit0 : Z) (g : rng) : outcome unit * world :=
  (Ok tt, mkWorld (__init__ cooling_rate0 iter_max0 T_min0 no_improve_limit0) g []).

(** [SimulatedAnnealing()] with the default arguments [0.02], [100], [1e-3]
    and [10]. *)
Definition default_world (g : rng) : world :=
  snd (construct 0.02 100 1e-3 10 g).

Definition read_file (f : instance_file) : M (Z * Z * list Z * list Z) :=
  modify_self (set_instance (file_capacity f) (len (file_profit f))
                            (file_profit f) (file_weight f)) ;;;
  if negb (len (file_profit f) =? len (file_weight f))%Z then raise ValueError
  else ret (file_capacity f, len (file_profit f), file_profit f, file_weight f).

(** The sort key [self.profit[i] / self.weight[i]], a float. *)
Definition ratio_key (i : nat) : M float :=
  p <- get_profit ;;
  pi <- lift (getitem p i) ;;
  wt <- get_weight ;;
  wi <- lift (getitem wt i) ;;
  lift (int_truediv pi wi).

Fixpoint keyed (positions : list nat) : M (list (nat * float)) :=
  match positions with
  | [] => ret []
  | i :: rest =>
      k <- ratio_key i ;;
      ks <- keyed rest ;;
      ret ((i, k) :: ks)
  end.

(** Stable insertion for a descending order on float keys. *)
Fixpoint insert_desc (x : nat * float) (l : list (nat * float)) : list (nat * float) :=
  match l with
  | [] => [x]
  | y :: t => if (snd y <=? snd x)%float then x :: y :: t
              else y :: insert_desc x t
  end.

Definition sorted_desc (l : list (nat * float)) : list (nat * float) :=
  fold_right insert_desc [] l.

Fixpoint greedy (items : list nat) (solution : list Z) (weight0 : Z) : M (list Z) :=
  match items with
  | [] => ret solution
  | i :: rest =>
      wt <- get_weight ;;
      wi <- lift (getitem wt i) ;;
      c <- get_capacity ;;
      if (weight0 + wi <=? c)%Z then
        solution' <- lift (setitem solution i 1%Z) ;;
        greedy rest solution' (weight0 + wi)%Z
      else greedy rest solution weight0
  end.

Definition generate_initial_solution : M (list Z) :=
  n <- get_amount ;;
  ks <- keyed (seq 0 (Z.to_nat n)) ;;
  let items := map fst (sorted_desc ks) in
  greedy items (repeat 0%Z (Z.to_nat n)) 0%Z.

(** The generator expression reads [self.profit] once per position, so an
    empty solution is scored without looking at the object. *)
Definition calculate_cost (solution : list Z) : M Z :=
  match solution with
  | [] => ret 0%Z
  | _ :: _ => p <- get_profit ;; lift (sum_products solution p)
  end.

(** [max(1, int(amount * 0.15))], with the float product. *)
Definition calculate_number_of_neighbors (amount0 : Z) : M unit :=
  a <- lift (float_of_int amount0) ;;
  k <- lift (int_of_float (a * 0.15)%float) ;;
  modify_self (set_neighbors_amount (Z.max 1 k)).

Fixpoint repair (fuel : nat) (neighbor : list Z) (weight0 : Z) : M (list Z) :=
  match fuel with
  | O => diverge
  | S fuel' =>
      c <- get_capacity ;;
      if (weight0 >? c)%Z then
        match indices_of_ones neighbor with
        | [] => ret neighbor
        | indices_1 =>
            i <- choice indices_1 ;;
            neighbor' <- lift (setitem neighbor i 0%Z) ;;
            wt <- get_weight ;;
            wi <- lift (getitem wt i) ;;
            repair fuel' neighbor' (weight0 - wi)%Z
        end
      else ret neighbor
  end.

Definition perturb (fuel : nat) (solution : list Z) : M (list Z) :=
  i <- randint 0 (len solution - 1) ;;
  x <- lift (getitem solution (Z.to_nat i)) ;;
  neighbor <- lift (setitem solution (Z.to_nat i) (1 - x)%Z) ;;
  wt <- get_weight ;;
  weight0 <- lift (sum_products neighbor wt) ;;
  repair fuel neighbor weight0.

Fixpoint collect_neighbors (fuel : nat) (count : nat) (solution : list Z)
  (neighbors : list (list Z)) : M (list (list Z)) :=
  match count with
  | O => ret neighbors
  | S count' =>
      neighbor <- perturb fuel solution ;;
      collect_neighbors fuel count' solution (neighbors ++ [neighbor])
  end.

Definition generate_neighbors (fuel : nat) (solution : list Z) : M (list (list Z)) :=
  s <- get_self ;;
  collect_neighbors fuel (Z.to_nat (neighbors_amount s)) solution [].

Fixpoint costs_of (neighbors : list (list Z)) : M (list Z) :=
  match neighbors with
  | [] => ret []
  | nb :: rest =>
      c <- calculate_cost nb ;;
      cs <- costs_of rest ;;
      ret (c :: cs)
  end.

(** [sum(neighbors_cost) / len(neighbors_cost) if neighbors_cost else 1]:
    the quotient of two [int]s; the fallback is the [int] 1, which behaves
    as [1.0] in all that follows. *)
Definition initial_temperature (fuel : nat) (solution : list Z) : M unit :=
  neighbors <- generate_neighbors fuel solution ;;
  neighbors_cost <- costs_of neighbors ;;
  match neighbors_cost with
  | [] => modify_self (set_temperature 1%float)
  | _ :: _ =>
      t <- lift (int_truediv (sumZ neighbors_cost) (len neighbors_cost)) ;;
      modify_self (set_temperature t)
  end.

Definition log_acceptance : M unit :=
  fun w => (Ok tt,
            mkWorld (self w) (random_state w)
                    (acceptance_log w ++ match temperature (self w) with
                                         | Some t => [t]
                                         | None => []
                                         end)).

Definition check_acceptance (cost new_cost : Z) : M bool :=
  log_acceptance ;;;
  if (new_cost >? cost)%Z then ret true
  else
    t <- get_temperature ;;
    delta <- lift (float_of_int (new_cost - cost)) ;;
    x <- lift (float_truediv delta t) ;;
    acceptance_probability <- lift (math_exp x) ;;
    u <- random ;;
    ret (u <? acceptance_probability)%float.

(** [self.temperature /= (1 + self.cooling_rate * math.sqrt(self.temperature))]. *)
Definition cooling : M float :=
  t <- get_temperature ;;
  s <- get_self ;;
  r <- lift (math_sqrt t) ;;
  t' <- lift (float_truediv t (1 + cooling_rate s * r)%float) ;;
  modify_self (set_temperature t') ;;;
  ret t'.

Definition visit (st : locals) (neighbor : list Z) : M locals :=
  new_cost <- calculate_cost neighbor ;;
  accepted <- check_acceptance (cost st) new_cost ;;
  if accepted : bool then
    if (new_cost >? best_cost st)%Z then
      modify_self (record_best neighbor new_cost) ;;;
      ret (mkLocals neighbor new_cost neighbor new_cost 0%Z)
    else
      ret (mkLocals neighbor new_cost (best_solution st) (best_cost st)
                    (no_improve_count st + 1)%Z)
  else ret st.

Fixpoint for_neighbors (neighbors : list (list Z)) (st : locals) : M locals :=
  match neighbors with
  | [] => ret st
  | nb :: rest => st' <- visit st nb ;; for_neighbors rest st'
  end.

Fixpoint for_iterations (fuel : nat) (count : nat) (st : locals) : M locals :=
  match count with
  | O => ret st
  | S count' =>
      neighbors <- generate_neighbors fuel (solution st) ;;
      st' <- for_neighbors neighbors st ;;
      cooling ;;;
      for_iterations fuel count' st'
  end.

Fixpoint search (fuel : nat) (passes : nat) (best_solution0 : list Z)
  (best_cost0 : Z) (no_improve_count0 : Z) : M (list Z * Z) :=
  match passes with
  | O => diverge
  | S passes' =>
      t <- get_temperature ;;
      s <- get_self ;;
      if (T_min s <? t)%float && (no_improve_count0 <? no_improve_limit s)%Z
      then
        st <- for_iterations fuel (Z.to_nat (iter_max s))
                (mkLocals best_solution0 best_cost0 best_solution0 best_cost0
                          no_improve_count0) ;;
        search fuel passes' (best_solution st) (best_cost st) (no_improve_count st)
      else ret (best_solution0, best_cost0)
  end.

Definition run (fuel : nat) (f : instance_file) : M (list Z * Z) :=
  inst <- read_file f ;;
  let '(_, n, _, _) := inst in
  calculate_number_of_neighbors n ;;;
  best_solution0 <- generate_initial_solution ;;
  initial_temperature fuel best_solution0 ;;;
  best_cost0 <- calculate_cost best_solution0 ;;
  search fuel fuel best_solution0 best_cost0 0%Z.

End Libm.

End Binary64.

(** * Properties *)

(** ** Lists *)

Lemma sum_products_over_shift (x y : Z) (xs ys : list Z) (positions : list nat) :
  sum_products_over (x :: xs) (y :: ys) (map S positions)
  = sum_products_over xs ys positions.
Proof.
  induction positions as [|j rest IH]; simpl; [reflexivity|].
  rewrite IH. reflexivity.
Qed.

Lemma sum_products_cons (x y : Z) (xs ys : list Z) :
  sum_products (x :: xs) (y :: ys)
  = obind (sum_products xs ys) (fun s => Ok (x * y + s)).
Proof.
  unfold sum_products. simpl length. simpl seq.
  rewrite <- seq_shift. simpl. rewrite sum_products_over_shift. reflexivity.
Qed.

Lemma sum_products_dot (xs ys : list Z) :
  (length xs <= length ys)%nat -> sum_products xs ys = Ok (dot xs ys).
Proof.
  revert ys. induction xs as [|x xs IH]; intros ys Hle; [reflexivity|].
  destruct ys as [|y ys]; simpl in Hle; [lia|].
  rewrite sum_products_cons, IH by lia. reflexivity.
Qed.

Lemma sum_products_short (xs ys : list Z) :
  (length ys < length xs)%nat -> sum_products xs ys = Raise IndexError.
Proof.
  revert ys. induction xs as [|x xs IH]; intros ys Hlt; simpl in Hlt; [lia|].
  destruct ys as [|y ys]; [reflexivity|].
  simpl in Hlt. rewrite sum_products_cons, IH by lia. reflexivity.
Qed.


Lemma getitem_Ok {A : Type} (l : list A) (i : nat) :
  (i < length l)%nat -> exists a, nth_error l i = Some a /\ getitem l i = Ok a.
Proof.
  intros Hi. unfold getitem.
  destruct (nth_error l i) as [a|] eqn:E.
  - exists a. split; reflexivity.
  - apply nth_error_None in E. lia.
Qed.

Lemma setitem_Ok {A : Type} (l : list A) (i : nat) (v : A) :
  (i < length l)%nat -> exists l', setitem l i v = Ok l' /\ length l' = length l.
Proof.
  revert i. induction l as [|h t IH]; intros i Hi; simpl in Hi; [lia|].
  destruct i as [|j]; simpl.
  - eexists. split; reflexivity.
  - destruct (IH j) as [t' [E L]]; [lia|]. rewrite E. simpl.
    eexists. split; [reflexivity|]. simpl. congruence.
Qed.

Lemma setitem_dot (l l' : list Z) (i : nat) (v x : Z) (ys : list Z) :
  setitem l i v = Ok l' -> nth_error l i = Some x ->
  dot l' ys = dot l ys + (v - x) * nth i ys 0.
Proof.
  revert l' i ys. induction l as [|h t IH]; intros l' i ys Hs Hn.
  - destruct i; discriminate.
  - destruct i as [|j]; simpl in Hs, Hn.
    + injection Hs as <-. injection Hn as <-.
      destruct ys as [|y ys]; simpl; lia.
    + destruct (setitem t j v) as [t'| |] eqn:E; simpl in Hs; try discriminate.
      injection Hs as <-.
      destruct ys as [|y ys]; simpl; [lia|].
      rewrite (IH t' j ys E Hn). lia.
Qed.

Lemma setitem_nth_error {A : Type} (l l' : list A) (i j : nat) (v : A) :
  setitem l i v = Ok l' ->
  nth_error l' j = if Nat.eqb j i then Some v else nth_error l j.
Proof.
  revert l' i j. induction l as [|h t IH]; intros l' i j Hs.
  - destruct i; discriminate.
  - destruct i as [|i]; simpl in Hs.
    + injection Hs as <-. destruct j; reflexivity.
    + destruct (setitem t i v) as [t'| |] eqn:E; simpl in Hs; try discriminate.
      injection Hs as <-. destruct j as [|j]; simpl; [reflexivity|].
      apply (IH t' i j E).
Qed.

Lemma setitem_binary (l l' : list Z) (i : nat) (v : Z) :
  setitem l i v = Ok l' -> binary l -> v = 0 \/ v = 1 -> binary l'.
Proof.
  revert l' i. induction l as [|h t IH]; intros l' i Hs Hb Hv.
  - destruct i; discriminate.
  - inversion Hb as [|? ? Hh Ht]; subst.
    destruct i as [|i]; simpl in Hs.
    + injection Hs as <-. constructor; assumption.
    + destruct (setitem t i v) as [t'| |] eqn:E; simpl in Hs; try discriminate.
      injection Hs as <-. constructor; [assumption|].
      apply (IH t' i E Ht Hv).
Qed.


Lemma binary_sum_bounds (l : list Z) :
  binary l -> 0 <= sumZ l <= len l.
Proof.
  unfold len. induction 1 as [|x l Hx _ IH]; simpl sumZ; simpl length; lia.
Qed.

Lemma setitem_sumZ (l l' : list Z) (i : nat) (v x : Z) :
  setitem l i v = Ok l' -> nth_error l i = Some x -> sumZ l' = sumZ l + (v - x).
Proof.
  revert l' i. induction l as [|h t IH]; intros l' i Hs Hn.
  - destruct i; discriminate.
  - destruct i as [|j]; simpl in Hs, Hn.
    + injection Hs as <-. injection Hn as <-. simpl. lia.
    + destruct (setitem t j v) as [t'| |] eqn:E; simpl in Hs; try discriminate.
      injection Hs as <-. simpl. rewrite (IH t' j E Hn). lia.
Qed.

Lemma indices_of_ones_In (l : list Z) (i : nat) :
  In i (indices_of_ones l) <-> nth_error l i = Some 1.
Proof.
  unfold indices_of_ones. rewrite filter_In, in_seq. split.
  - intros [_ H]. destruct (nth_error l i) as [x|]; [|discriminate].
    apply Z.eqb_eq in H. congruence.
  - intros H. split.
    + assert (nth_error l i <> None) as Hn by congruence.
      apply nth_error_Some in Hn. lia.
    + rewrite H. reflexivity.
Qed.

Lemma no_ones_dot (l ys : list Z) :
  binary l -> indices_of_ones l = [] -> dot l ys = 0.
Proof.
  intros Hb Hnone.
  assert (forall i, nth_error l i <> Some 1) as Hno.
  { intros i Hi. apply indices_of_ones_In in Hi. rewrite Hnone in Hi. destruct Hi. }
  clear Hnone. revert ys. induction Hb as [|x l Hx Hb IH]; intros ys; [reflexivity|].
  destruct ys as [|y ys]; [reflexivity|]. simpl.
  rewrite IH.
  - destruct Hx as [-> | ->]; [lia|]. exfalso. apply (Hno 0%nat). reflexivity.
  - intros i. apply (Hno (S i)).
Qed.

(** Split a conjunction without unfolding what its parts are. *)
Ltac splits := repeat match goal with |- _ /\ _ => split end.

(** ** Rules of the weakest precondition *)

Lemma wp_ret {A : Type} (a : A) (Q : outcome A -> world -> Prop) (w : world) :
  Q (Ok a) w -> wp (ret a) Q w.
Proof. exact (fun H => H). Qed.

Lemma wp_raise {A : Type} (e : exn) (Q : outcome A -> world -> Prop) (w : world) :
  Q (Raise e) w -> wp (raise e) Q w.
Proof. exact (fun H => H). Qed.

Lemma wp_diverge {A : Type} (Q : outcome A -> world -> Prop) (w : world) :
  Q OutOfFuel w -> wp diverge Q w.
Proof. exact (fun H => H). Qed.

Lemma wp_lift {A : Type} (o : outcome A) (Q : outcome A -> world -> Prop) (w : world) :
  Q o w -> wp (lift o) Q w.
Proof. exact (fun H => H). Qed.

Lemma wp_bind {A B : Type} (m : M A) (k : A -> M B)
  (Q : outcome B -> world -> Prop) (w : world) :
  wp m (fun o w' => match o with
                    | Ok a => wp (k a) Q w'
                    | Raise e => Q (Raise e) w'
                    | OutOfFuel => Q OutOfFuel w'
                    end) w ->
  wp (bind m k) Q w.
Proof.
  unfold wp, bind. destruct (m w) as [[a|e|] w']; simpl; exact (fun H => H).
Qed.

Lemma wp_mono {A : Type} (m : M A) (Q Q' : outcome A -> world -> Prop) (w : world) :
  wp m Q w -> (forall o w', Q o w' -> Q' o w') -> wp m Q' w.
Proof. unfold wp. intros H HQ. apply HQ, H. Qed.

Lemma wp_attr {A B : Type} (f : SimulatedAnnealing -> option A) (e : exn) (a : A)
  (k : A -> M B) (Q : outcome B -> world -> Prop) (w : world) :
  f (self w) = Some a -> wp (k a) Q w -> wp (bind (attr f e) k) Q w.
Proof.
  intros Hf H. unfold wp, bind, attr in *. rewrite Hf. exact H.
Qed.

Lemma wp_get_self {B : Type} (k : SimulatedAnnealing -> M B)
  (Q : outcome B -> world -> Prop) (w : world) :
  wp (k (self w)) Q w -> wp (bind get_self k) Q w.
Proof. exact (fun H => H). Qed.

Lemma wp_next_raw {B : Type} (k : Z -> M B) (Q : outcome B -> world -> Prop) (w : world) :
  wp (k (random_state w 0%nat)) Q
     (mkWorld (self w) (fun j => random_state w (S j)) (acceptance_log w)) ->
  wp (bind next_raw k) Q w.
Proof. exact (fun H => H). Qed.

Lemma wp_modify_self {B : Type} (f : SimulatedAnnealing -> SimulatedAnnealing)
  (k : unit -> M B) (Q : outcome B -> world -> Prop) (w : world) :
  wp (k tt) Q (mkWorld (f (self w)) (random_state w) (acceptance_log w)) ->
  wp (bind (modify_self f) k) Q w.
Proof. exact (fun H => H). Qed.

Lemma wp_lift_bind {A B : Type} (o : outcome A) (k : A -> M B)
  (Q : outcome B -> world -> Prop) (w : world) :
  match o with
  | Ok a => wp (k a) Q w
  | Raise e => Q (Raise e) w
  | OutOfFuel => Q OutOfFuel w
  end ->
  wp (bind (lift o) k) Q w.
Proof. unfold wp, bind, lift. destruct o; exact (fun H => H). Qed.

Lemma only_rng_refl (w : world) : only_rng w w.
Proof. split; reflexivity. Qed.

Lemma only_rng_trans (w1 w2 w3 : world) :
  only_rng w1 w2 -> only_rng w2 w3 -> only_rng w1 w3.
Proof. unfold only_rng. intros [A B] [C D]. split; congruence. Qed.

Lemma only_rng_draw (w : world) (g : rng) :
  only_rng w (mkWorld (self w) g (acceptance_log w)).
Proof. split; reflexivity. Qed.

(** ** The random module *)

Lemma choice_wp (l : list nat) (w : world) :
  l <> [] ->
  wp (choice l)
     (fun o w' => only_rng w w' /\ exists i, o = Ok i /\ In i l) w.
Proof.
  intros Hne. destruct l as [|x t]; [congruence|].
  unfold choice. apply wp_next_raw. apply wp_lift.
  split; [apply only_rng_draw|].
  set (r := random_state w 0%nat).
  assert (0 <= r mod len (x :: t) < len (x :: t)) as Hr.
  { apply Z.mod_pos_bound. unfold len. simpl length. lia. }
  destruct (getitem_Ok (x :: t) (Z.to_nat (r mod len (x :: t)))) as [i [Hn Hg]].
  { unfold len in *. lia. }
  exists i. split; [exact Hg|]. eapply nth_error_In; exact Hn.
Qed.

Lemma randint_wp (b : Z) (w : world) :
  0 <= b ->
  wp (randint 0 b)
     (fun o w' => only_rng w w' /\ exists i, o = Ok i /\ 0 <= i <= b) w.
Proof.
  intros Hb. unfold randint.
  destruct (b <? 0) eqn:E; [apply Z.ltb_lt in E; lia|].
  apply wp_next_raw. apply wp_ret.
  split; [apply only_rng_draw|].
  eexists. split; [reflexivity|].
  pose proof (Z.mod_pos_bound (random_state w 0%nat) (b - 0 + 1)). lia.
Qed.

Lemma random_wp (w : world) :
  wp random
     (fun o w' => only_rng w w' /\ exists u, o = Ok u /\ (0 <= u < 1)%R) w.
Proof.
  unfold random. apply wp_next_raw. apply wp_ret.
  split; [apply only_rng_draw|].
  eexists. split; [reflexivity|].
  pose proof (Z.mod_pos_bound (random_state w 0%nat) (2 ^ 53) ltac:(lia)) as [Hlo Hhi].
  apply IZR_le in Hlo. apply IZR_lt in Hhi.
  assert (0 < IZR (2 ^ 53))%R as Hpos by (apply IZR_lt; lia).
  split.
  - apply Rmult_le_pos; [exact Hlo|]. left. apply Rinv_0_lt_compat. exact Hpos.
  - apply Rmult_lt_reg_r with (IZR (2 ^ 53)); [exact Hpos|].
    unfold Rdiv. rewrite Rmult_assoc, Rinv_l by lra. lra.
Qed.

(** ** The neighborhood *)

Section Neighborhood.

Variables (c : Z) (p wt : list Z).

Lemma repair_wp (fuel : nat) :
  forall (nb : list Z) (weight0 : Z) (w : world),
    loaded c p wt (self w) -> binary nb -> length nb = length wt ->
    dot nb wt = weight0 ->
    wp (repair fuel nb weight0)
       (fun o w' => only_rng w w' /\
                    match o with
                    | Ok nb' => admissible c wt nb'
                    | Raise _ => False
                    | OutOfFuel => Z.of_nat fuel <= sumZ nb
                    end) w.
Proof.
  induction fuel as [|fuel IH]; intros nb weight0 w Hl Hb Hlen Hdot.
  - apply wp_diverge. split; [apply only_rng_refl|].
    pose proof (binary_sum_bounds nb Hb). lia.
  - assert (Hl' := Hl). destruct Hl' as (Hc & _ & _ & Hw).
    simpl. apply (wp_attr _ _ c); [exact Hc|].
    destruct (weight0 >? c) eqn:Egt.
    + destruct (indices_of_ones nb) as [|i0 rest] eqn:Eones.
      * apply wp_ret. split; [apply only_rng_refl|].
        repeat split; try assumption.
        rewrite (no_ones_dot nb wt Hb Eones). trivial.
      * apply wp_bind.
        eapply wp_mono; [apply (choice_wp (i0 :: rest)); discriminate|].
        intros o w1 [Hrng (i & -> & Hin)].
        rewrite <- Eones in Hin. apply indices_of_ones_In in Hin.
        assert (i < length nb)%nat as Hi.
        { apply nth_error_Some. congruence. }
        destruct (setitem_Ok nb i 0 Hi) as (nb' & Hset & Hlen').
        rewrite Hset. apply wp_lift_bind.
        destruct Hrng as [Hself Hlog].
        apply (wp_attr _ _ wt); [rewrite Hself; exact Hw|].
        destruct (getitem_Ok wt i) as (wi & Hnth & Hget); [lia|].
        rewrite Hget. apply wp_lift_bind.
        eapply wp_mono.
        { apply IH.
          - rewrite Hself. exact Hl.
          - apply (setitem_binary nb nb' i 0 Hset Hb). left. reflexivity.
          - lia.
          - rewrite (setitem_dot nb nb' i 0 1 wt Hset Hin).
            rewrite (nth_error_nth wt i 0 Hnth). lia. }
        intros o w2 [Hrng2 Hpost]. split.
        { eapply only_rng_trans; [split; eassumption|exact Hrng2]. }
        destruct o as [nb2|e|]; try exact Hpost.
        rewrite (setitem_sumZ nb nb' i 0 1 Hset Hin) in Hpost. lia.
    + apply wp_ret. split; [apply only_rng_refl|].
      repeat split; try assumption.
      intros _. rewrite Z.gtb_ltb in Egt. apply Z.ltb_ge in Egt. lia.
Qed.

Lemma perturb_wp (fuel : nat) (sol : list Z) (w : world) :
  loaded c p wt (self w) -> binary sol -> length sol = length wt ->
  wp (perturb fuel sol)
     (fun o w' => only_rng w w' /\
                  match o with
                  | Ok nb => admissible c wt nb
                  | Raise e => sol = [] /\ e = ValueError
                  | OutOfFuel => (fuel <= length sol)%nat
                  end) w.
Proof.
  intros Hl Hb Hlen. unfold perturb.
  destruct sol as [|x0 sol0] eqn:Esol.
  - apply wp_raise. split; [apply only_rng_refl|]. split; reflexivity.
  - rewrite <- Esol in *. assert (0 < len sol) as Hpos.
    { unfold len. rewrite Esol. simpl length. lia. }
    apply wp_bind. eapply wp_mono; [apply randint_wp; lia|].
    intros o w1 [[Hself Hlog] (i & -> & Hi)].
    assert (Z.to_nat i < length sol)%nat as Hi' by (unfold len in *; lia).
    destruct (getitem_Ok sol _ Hi') as (x & Hnth & Hget).
    rewrite Hget. apply wp_lift_bind.
    destruct (setitem_Ok sol _ (1 - x) Hi') as (nb & Hset & Hlen').
    rewrite Hset. apply wp_lift_bind.
    assert (x = 0 \/ x = 1) as Hx.
    { unfold binary in Hb. rewrite Forall_forall in Hb. apply Hb.
      eapply nth_error_In. exact Hnth. }
    assert (binary nb) as Hbnb.
    { apply (setitem_binary sol nb _ _ Hset Hb). lia. }
    apply (wp_attr _ _ wt); [rewrite Hself; apply Hl|].
    rewrite sum_products_dot by lia. apply wp_lift_bind.
    eapply wp_mono.
    { apply repair_wp; [rewrite Hself; exact Hl|exact Hbnb|lia|reflexivity]. }
    intros o w2 [Hrng2 Hpost]. split.
    { eapply only_rng_trans; [split; eassumption|exact Hrng2]. }
    destruct o as [nb2|e|]; [exact Hpost|destruct Hpost|].
    pose proof (binary_sum_bounds nb Hbnb). unfold len in *. lia.
Qed.

Lemma collect_neighbors_wp (fuel count : nat) (sol : list Z) :
  forall (acc : list (list Z)) (w : world),
    loaded c p wt (self w) -> binary sol -> length sol = length wt ->
    Forall (admissible c wt) acc ->
    wp (collect_neighbors fuel count sol acc)
       (fun o w' => only_rng w w' /\
                    match o with
                    | Ok nbs => length nbs = (length acc + count)%nat
                                /\ Forall (admissible c wt) nbs
                    | Raise e => sol = [] /\ e = ValueError
                    | OutOfFuel => (fuel <= length sol)%nat
                    end) w.
Proof.
  induction count as [|count IH]; intros acc w Hl Hb Hlen Hacc; simpl.
  - apply wp_ret. split; [apply only_rng_refl|]. split; [lia|exact Hacc].
  - apply wp_bind. eapply wp_mono; [apply perturb_wp; assumption|].
    intros o w1 [[Hself Hlog] Hpost].
    destruct o as [nb|e|].
    + eapply wp_mono.
      { apply (IH (acc ++ [nb])); [rewrite Hself; exact Hl|assumption|assumption|].
        apply Forall_app. split; [exact Hacc|]. constructor; [exact Hpost|constructor]. }
      intros o w2 [Hrng2 Hpost2]. split.
      { eapply only_rng_trans; [split; eassumption|exact Hrng2]. }
      destruct o as [nbs|e|]; try exact Hpost2.
      rewrite length_app in Hpost2. simpl in Hpost2.
      split; [lia|apply Hpost2].
    + split; [split; assumption|exact Hpost].
    + split; [split; assumption|exact Hpost].
Qed.

Lemma generate_neighbors_wp (fuel : nat) (sol : list Z) (w : world) :
  loaded c p wt (self w) -> binary sol -> length sol = length wt ->
  wp (generate_neighbors fuel sol)
     (fun o w' => only_rng w w' /\
                  match o with
                  | Ok nbs => length nbs = Z.to_nat (neighbors_amount (self w))
                              /\ Forall (admissible c wt) nbs
                  | Raise e => sol = [] /\ e = ValueError
                  | OutOfFuel => (fuel <= length sol)%nat
                  end) w.
Proof.
  intros Hl Hb Hlen. unfold generate_neighbors. apply wp_get_self.
  apply collect_neighbors_wp; try assumption. constructor.
Qed.

End Neighborhood.

(** ** Cooling *)

Lemma cool_denominator (rate t : R) :
  (0 <= rate)%R -> (1 <= 1 + rate * sqrt t)%R.
Proof.
  intros Hr. pose proof (sqrt_pos t) as Hs.
  pose proof (Rmult_le_pos _ _ Hr Hs). lra.
Qed.

Lemma cool_pos (rate t : R) :
  (0 <= rate)%R -> (0 < t)%R -> (0 < cool rate t)%R.
Proof.
  intros Hr Ht. unfold cool. pose proof (cool_denominator rate t Hr).
  apply Rdiv_lt_0_compat; lra.
Qed.

Lemma cool_le (rate t : R) :
  (0 <= rate)%R -> (0 < t)%R -> (cool rate t <= t)%R.
Proof.
  intros Hr Ht. unfold cool. pose proof (cool_denominator rate t Hr) as Hd.
  apply Rmult_le_reg_r with (1 + rate * sqrt t)%R; [lra|].
  unfold Rdiv. rewrite Rmult_assoc, Rinv_l by lra.
  pose proof (Rmult_le_pos _ _ Hr (sqrt_pos t)). nra.
Qed.



Lemma cooling_wp (t : R) (w : world) :
  temperature (self w) = Some t ->
  wp cooling
     (fun o w' =>
        match o with
        | Ok t' => t' = cool (cooling_rate (self w)) t
                   /\ w' = mkWorld (set_temperature t' (self w)) (random_state w)
                                   (acceptance_log w)
        | Raise _ => w' = w /\ ((t < 0)%R \/ (1 + cooling_rate (self w) * sqrt t = 0)%R)
        | OutOfFuel => False
        end) w.
Proof.
  intros Ht. unfold cooling.
  apply (wp_attr _ _ t); [exact Ht|]. apply wp_get_self.
  destruct (Rlt_dec t 0) as [Hneg|Hnn].
  - apply wp_raise. split; [reflexivity|]. left. exact Hneg.
  - destruct (Req_dec_T (1 + cooling_rate (self w) * sqrt t) 0) as [Hz|Hnz].
    + apply wp_raise. split; [reflexivity|]. right. exact Hz.
    + apply wp_modify_self. apply wp_ret. split; reflexivity.
Qed.

(** ** The acceptance criterion and the visit of a neighbor *)

Lemma frozen_loaded (c : Z) (p wt : list Z) (s s' : SimulatedAnnealing) :
  frozen s' = frozen s -> loaded c p wt s -> loaded c p wt s'.
Proof.
  unfold frozen, loaded. intros E (A & B & C & D).
  injection E as _ _ _ _ _ E1 E2 E3 E4. repeat split; congruence.
Qed.

Lemma wp_log_acceptance {B : Type} (k : unit -> M B)
  (Q : outcome B -> world -> Prop) (w : world) (t : R) :
  temperature (self w) = Some t ->
  wp (k tt) Q (mkWorld (self w) (random_state w) (acceptance_log w ++ [t])) ->
  wp (bind log_acceptance k) Q w.
Proof.
  intros Ht H. unfold wp, bind, log_acceptance in *. rewrite Ht. exact H.
Qed.

Lemma check_acceptance_wp (cost0 new_cost : Z) (t : R) (w : world) :
  temperature (self w) = Some t ->
  wp (check_acceptance cost0 new_cost)
     (fun o w' =>
        self w' = self w /\ acceptance_log w' = acceptance_log w ++ [t]
        /\ match o with
           | Ok b => new_cost > cost0 \/ t <> 0%R
           | Raise e => new_cost <= cost0 /\ t = 0%R /\ e = ZeroDivisionError
           | OutOfFuel => False
           end) w.
Proof.
  intros Ht. unfold check_acceptance.
  apply (wp_log_acceptance _ _ _ t Ht).
  destruct (new_cost >? cost0) eqn:Egt.
  - apply wp_ret. repeat split. left. apply Z.gtb_gt. exact Egt.
  - apply (wp_attr _ _ t); [exact Ht|].
    destruct (Req_dec_T t 0) as [Hz|Hnz].
    + apply wp_raise. repeat split; try assumption.
      rewrite Z.gtb_ltb in Egt. apply Z.ltb_ge in Egt. exact Egt.
    + apply wp_bind. eapply wp_mono; [apply random_wp|].
      intros o w2 [[Hself Hlog] (u & -> & Hu)]. apply wp_ret.
      repeat split; try assumption. right. exact Hnz.
Qed.

Lemma frozen_set_temperature (t : R) (s : SimulatedAnnealing) :
  frozen (set_temperature t s) = frozen s.
Proof. reflexivity. Qed.

Lemma frozen_config (s s' : SimulatedAnnealing) :
  frozen s' = frozen s ->
  cooling_rate s' = cooling_rate s /\ iter_max s' = iter_max s
  /\ T_min s' = T_min s /\ no_improve_limit s' = no_improve_limit s
  /\ neighbors_amount s' = neighbors_amount s.
Proof.
  unfold frozen. intros E. injection E as E1 E2 E3 E4 E5 _ _ _ _.
  repeat split; assumption.
Qed.


Section Search.

Variables (c : Z) (p wt : list Z).
Hypothesis Hpw : length p = length wt.

Lemma calculate_cost_wp {B : Type} (sol : list Z) (k : Z -> M B)
  (Q : outcome B -> world -> Prop) (w : world) :
  loaded c p wt (self w) -> length sol = length wt ->
  wp (k (dot sol p)) Q w -> wp (bind (calculate_cost sol) k) Q w.
Proof.
  intros Hl Hlen H. unfold calculate_cost.
  apply wp_bind. apply (wp_attr _ _ p); [apply Hl|].
  rewrite sum_products_dot by lia. apply wp_lift. exact H.
Qed.

Lemma visit_wp (st : locals) (nb : list Z) (t : R) (w : world) :
  loaded c p wt (self w) -> consistent c p wt st -> admissible c wt nb ->
  temperature (self w) = Some t ->
  wp (visit st nb)
     (fun o w' =>
        frozen (self w') = frozen (self w) /\ temperature (self w') = Some t
        /\ acceptance_log w' = acceptance_log w ++ [t]
        /\ match o with
           | Ok st' => consistent c p wt st'
           | Raise _ => t = 0%R
           | OutOfFuel => False
           end) w.
Proof.
  intros Hl Hst Hnb Ht. unfold visit.
  apply calculate_cost_wp; [exact Hl|apply Hnb|].
  apply wp_bind. eapply wp_mono; [apply (check_acceptance_wp _ _ t); exact Ht|].
  intros o w1 (Hself & Hlog & Hpost).
  destruct o as [accepted|e|].
  - destruct accepted.
    + destruct (dot nb p >? best_cost st) eqn:Ebest.
      * apply wp_modify_self. apply wp_ret. simpl.
        rewrite Hself. splits; try assumption; [reflexivity|].
        unfold consistent; simpl; splits; try exact Hnb; lia.
      * apply wp_ret. rewrite Hself. splits; try assumption; [reflexivity|].
        rewrite Z.gtb_ltb in Ebest. apply Z.ltb_ge in Ebest.
        unfold consistent; simpl; splits;
          try exact Hnb; try apply Hst; try reflexivity; exact Ebest.
    + apply wp_ret. rewrite Hself. splits; try assumption. reflexivity.
  - rewrite Hself. splits; try assumption; [reflexivity|apply Hpost].
  - destruct Hpost.
Qed.

Lemma for_neighbors_wp (t : R) (nbs : list (list Z)) :
  forall (st : locals) (w : world),
    loaded c p wt (self w) -> consistent c p wt st ->
    Forall (admissible c wt) nbs -> temperature (self w) = Some t ->
    wp (for_neighbors nbs st)
       (fun o w' =>
          frozen (self w') = frozen (self w) /\ temperature (self w') = Some t
          /\ (exists new, acceptance_log w' = acceptance_log w ++ new
                          /\ Forall (eq t) new)
          /\ match o with
             | Ok st' => consistent c p wt st'
             | Raise _ => t = 0%R
             | OutOfFuel => False
             end) w.
Proof.
  induction nbs as [|nb rest IH]; intros st w Hl Hst Hnbs Ht; simpl.
  - apply wp_ret. splits; try assumption; [reflexivity|].
    exists []. rewrite app_nil_r. split; [reflexivity|constructor].
  - inversion Hnbs as [|? ? Hnb Hrest]; subst.
    apply wp_bind. eapply wp_mono; [apply (visit_wp st nb t); assumption|].
    intros o w1 (Hfr & Ht1 & Hlog & Hpost).
    destruct o as [st1|e|].
    + eapply wp_mono.
      { apply (IH st1 w1); try assumption. eapply frozen_loaded; eassumption. }
      intros o w2 (Hfr2 & Ht2 & (new & Hlog2 & Hnew) & Hpost2).
      splits; try assumption; [congruence|].
      exists (t :: new). split.
      * rewrite Hlog2, Hlog, <- app_assoc. reflexivity.
      * constructor; [reflexivity|exact Hnew].
    + splits; try assumption.
      exists [t]. split; [exact Hlog|]. constructor; [reflexivity|constructor].
    + destruct Hpost.
Qed.

Lemma for_iterations_wp (fuel count : nat) :
  forall (st : locals) (t : R) (w : world),
    loaded c p wt (self w) -> consistent c p wt st ->
    temperature (self w) = Some t ->
    wp (for_iterations fuel count st)
       (fun o w' =>
          frozen (self w') = frozen (self w)
          /\ (exists t' new,
                temperature (self w') = Some t'
                /\ acceptance_log w' = acceptance_log w ++ new
                /\ ((0 <= cooling_rate (self w))%R -> (0 < t)%R ->
                    (0 < t' <= t)%R /\ Forall (Rlt 0) new
                    /\ (forall st', o = Ok st' -> (0 < count)%nat ->
                                    (t' <= cool (cooling_rate (self w)) t)%R)))
          /\ match o with
             | Ok st' => consistent c p wt st'
             | Raise _ => (0 <= cooling_rate (self w))%R -> (0 < t)%R -> wt = []
             | OutOfFuel => (fuel <= length wt)%nat
             end) w.
Proof.
  induction count as [|count IH]; intros st t w Hl Hst Ht; simpl.
  - apply wp_ret. split; [reflexivity|]. split; [|exact Hst].
    exists t, []. rewrite app_nil_r. split; [exact Ht|]. split; [reflexivity|].
    intros Hr Hpos. split; [lra|]. split; [constructor|]. intros; lia.
  - assert (Hsol := Hst). destruct Hsol as ((Hb & Hlen & _) & _).
    apply wp_bind. eapply wp_mono; [apply (generate_neighbors_wp c p wt); assumption|].
    intros o w1 [[Hself Hlog] Hpost].
    assert (forall o' : outcome locals,
               match o' with Ok _ => False | _ => True end ->
               (frozen (self w1) = frozen (self w)
          /\ (exists t' new,
                temperature (self w1) = Some t'
                /\ acceptance_log w1 = acceptance_log w ++ new
                /\ ((0 <= cooling_rate (self w))%R -> (0 < t)%R ->
                    (0 < t' <= t)%R /\ Forall (Rlt 0) new
                    /\ (forall st', o' = Ok st' -> (0 < S count)%nat ->
                                    (t' <= cool (cooling_rate (self w)) t)%R)))))
      as Hstop.
    { intros o' Ho'. rewrite Hself. split; [reflexivity|].
      exists t, []. rewrite app_nil_r. split; [exact Ht|]. split; [exact Hlog|].
      intros Hr Hpos. split; [lra|]. split; [constructor|].
      intros st' ->. destruct Ho'. }
    destruct o as [nbs|e|].
    2:{ destruct (Hstop (Raise e) I) as [A B]. split; [exact A|]. split; [exact B|].
        intros _ _. destruct Hpost as [Hs _]. rewrite Hs in Hlen.
        destruct wt; [reflexivity|discriminate]. }
    2:{ destruct (Hstop OutOfFuel I) as [A B]. split; [exact A|]. split; [exact B|lia]. }
    clear Hstop. destruct Hpost as [_ Hnbs].
    apply wp_bind. eapply wp_mono.
    { apply (for_neighbors_wp t nbs st w1); try assumption.
      - rewrite Hself. exact Hl.
      - rewrite Hself. exact Ht. }
    intros o w2 (Hfr2 & Ht2 & (new1 & Hlog2 & Hnew1) & Hpost2).
    rewrite Hself in Hfr2. rewrite Hlog in Hlog2.
    assert (forall o' : outcome locals,
               match o' with Ok _ => False | _ => True end ->
               (exists t' new,
                temperature (self w2) = Some t'
                /\ acceptance_log w2 = acceptance_log w ++ new
                /\ ((0 <= cooling_rate (self w))%R -> (0 < t)%R ->
                    (0 < t' <= t)%R /\ Forall (Rlt 0) new
                    /\ (forall st', o' = Ok st' -> (0 < S count)%nat ->
                                    (t' <= cool (cooling_rate (self w)) t)%R))))
      as Hstop.
    { intros o' Ho'. exists t, new1. split; [exact Ht2|]. split; [exact Hlog2|].
      intros Hr Hpos. split; [lra|]. split.
      - eapply Forall_impl; [|exact Hnew1]. intros a <-. assumption.
      - intros st' ->. destruct Ho'. }
    destruct o as [st1|e|].
    2:{ split; [exact Hfr2|]. split; [apply (Hstop (Raise e) I)|].
        intros _ Hpos. lra. }
    2:{ destruct Hpost2. }
    apply wp_bind. eapply wp_mono; [apply (cooling_wp t); exact Ht2|].
    intros o w3 Hcool.
    destruct o as [t3|e|].
    2:{ destruct Hcool as [-> Hbad]. split; [exact Hfr2|].
        split; [apply (Hstop (Raise e) I)|].
        intros Hr Hpos. destruct (frozen_config _ _ Hfr2) as (Hrate & _).
        rewrite Hrate in Hbad. pose proof (cool_denominator _ t Hr).
        destruct Hbad; lra. }
    2:{ destruct Hcool. }
    clear Hstop. destruct Hcool as [Et3 ->].
    destruct (frozen_config _ _ Hfr2) as (Hrate & _).
    eapply wp_mono.
    { apply (IH st1 t3); simpl; try assumption; [|reflexivity].
      eapply frozen_loaded; [|exact Hl]. rewrite frozen_set_temperature. exact Hfr2. }
    simpl. intros o w4 (Hfr4 & (t4 & new2 & Ht4 & Hlog4 & Htemp) & Hpost4).
    assert (match o with
            | Ok st' => consistent c p wt st'
            | Raise _ => (0 <= cooling_rate (self w))%R -> (0 < t)%R -> wt = []
            | OutOfFuel => (fuel <= length wt)%nat
            end) as Hmatch.
    { destruct o as [st4|e|]; try exact Hpost4.
      intros Hr Hpos. apply Hpost4; [rewrite Hrate; exact Hr|].
      rewrite Et3, Hrate. apply cool_pos; assumption. }
    split; [rewrite Hfr4, frozen_set_temperature; exact Hfr2|]. split; [|exact Hmatch].
    exists t4, (new1 ++ new2). split; [exact Ht4|].
    split; [rewrite Hlog4, Hlog2, <- app_assoc; reflexivity|].
    intros Hr Hpos. rewrite Hrate in Et3, Htemp. subst t3.
    pose proof (cool_pos _ _ Hr Hpos) as Hc3.
    pose proof (cool_le _ _ Hr Hpos) as Hc3'.
    destruct Htemp as (Hb4 & Hnew2 & _); [assumption|assumption|].
    split; [lra|]. split.
    + apply Forall_app. split; [|exact Hnew2].
      eapply Forall_impl; [|exact Hnew1]. intros a <-. assumption.
    + intros _ _ _. lra.
Qed.

Lemma consistent_restart (bs : list Z) (bc nic : Z) :
  admissible c wt bs -> dot bs p = bc ->
  consistent c p wt (mkLocals bs bc bs bc nic).
Proof.
  intros Hbs Hbc. unfold consistent; simpl. splits; try assumption. lia.
Qed.

Lemma search_wp (fuel passes : nat) :
  forall (bs : list Z) (bc nic : Z) (t : R) (w : world),
    loaded c p wt (self w) -> admissible c wt bs -> dot bs p = bc ->
    temperature (self w) = Some t ->
    wp (search fuel passes bs bc nic)
       (fun o w' =>
          frozen (self w') = frozen (self w)
          /\ (exists new,
                acceptance_log w' = acceptance_log w ++ new
                /\ ((0 <= cooling_rate (self w))%R -> (0 <= T_min (self w))%R ->
                    Forall (Rlt 0) new))
          /\ match o with
             | Ok (bs', bc') => admissible c wt bs' /\ dot bs' p = bc'
             | _ => True
             end) w.
Proof.
  induction passes as [|passes IH]; intros bs bc nic t w Hl Hbs Hbc Ht; simpl.
  - apply wp_diverge. split; [reflexivity|]. split; [|exact I].
    exists []. rewrite app_nil_r. split; [reflexivity|]. intros; constructor.
  - apply (wp_attr _ _ t); [exact Ht|]. apply wp_get_self.
    assert (wp (ret (bs, bc))
              (fun (o : outcome (list Z * Z)) w' =>
          frozen (self w') = frozen (self w)
          /\ (exists new,
                acceptance_log w' = acceptance_log w ++ new
                /\ ((0 <= cooling_rate (self w))%R -> (0 <= T_min (self w))%R ->
                    Forall (Rlt 0) new))
          /\ match o with
             | Ok (bs', bc') => admissible c wt bs' /\ dot bs' p = bc'
             | _ => True
             end) w) as Hexit.
    { apply wp_ret. split; [reflexivity|]. split; [|split; assumption].
      exists []. rewrite app_nil_r. split; [reflexivity|]. intros; constructor. }
    destruct (Rgt_dec t (T_min (self w))) as [Hgt|Hle]; [|exact Hexit].
    destruct (nic <? no_improve_limit (self w)); [|exact Hexit].
    clear Hexit. simpl andb. cbv iota.
    apply wp_bind. eapply wp_mono.
    { apply (for_iterations_wp fuel _ _ t w Hl (consistent_restart bs bc nic Hbs Hbc) Ht). }
    intros o w1 (Hfr & (t1 & new1 & Ht1 & Hlog1 & Htemp) & Hpost).
    destruct (frozen_config _ _ Hfr) as (Hrate & _ & Hmin & _).
    destruct o as [st|e|].
    + eapply wp_mono.
      { apply (IH (best_solution st) (best_cost st) (no_improve_count st) t1 w1);
          try assumption; try apply Hpost.
        eapply frozen_loaded; eassumption. }
      intros o w2 (Hfr2 & (new2 & Hlog2 & Hnew2) & Hpost2).
      split; [congruence|]. split; [|exact Hpost2].
      exists (new1 ++ new2). split.
      * rewrite Hlog2, Hlog1, <- app_assoc. reflexivity.
      * intros Hr Hm. rewrite Hrate, Hmin in Hnew2.
        apply Forall_app. split; [|apply Hnew2; assumption].
        apply Htemp; [exact Hr|]. unfold Rgt in Hgt. lra.
    + split; [exact Hfr|]. split; [|exact I].
      exists new1. split; [exact Hlog1|]. intros Hr Hm.
      apply Htemp; [exact Hr|]. unfold Rgt in Hgt. lra.
    + split; [exact Hfr|]. split; [|exact I].
      exists new1. split; [exact Hlog1|]. intros Hr Hm.
      apply Htemp; [exact Hr|]. unfold Rgt in Hgt. lra.
Qed.


End Search.

(** ** The initial solution *)

Lemma insert_desc_perm (x : nat * Q) (l : list (nat * Q)) :
  Permutation (insert_desc x l) (x :: l).
Proof.
  induction l as [|y t IH]; simpl; [apply Permutation_refl|].
  destruct (Qle_bool (snd y) (snd x)); [apply Permutation_refl|].
  eapply Permutation_trans; [apply perm_skip, IH|apply perm_swap].
Qed.

Lemma sorted_desc_perm (l : list (nat * Q)) : Permutation (sorted_desc l) l.
Proof.
  induction l as [|x t IH]; simpl; [apply Permutation_refl|].
  eapply Permutation_trans; [apply insert_desc_perm|apply perm_skip, IH].
Qed.

Lemma dot_repeat_zero (n : nat) (ys : list Z) : dot (repeat 0 n) ys = 0.
Proof.
  revert ys. induction n as [|n IH]; intros ys; [reflexivity|].
  destruct ys as [|y ys]; [reflexivity|]. simpl. rewrite IH. lia.
Qed.

Lemma binary_repeat_zero (n : nat) : binary (repeat 0 n).
Proof.
  apply Forall_forall. intros x Hx. apply repeat_spec in Hx. left. exact Hx.
Qed.

Section InitialSolution.

Variables (c : Z) (p wt : list Z).
Hypothesis Hpw : length p = length wt.

Lemma ratio_key_wp (i : nat) (w : world) :
  loaded c p wt (self w) -> (i < length wt)%nat ->
  wp (ratio_key i)
     (fun o w' => w' = w /\
                  match o with
                  | Ok _ => nth_error wt i <> Some 0
                  | Raise e => e = ZeroDivisionError /\ nth_error wt i = Some 0
                  | OutOfFuel => False
                  end) w.
Proof.
  intros Hl Hi. unfold ratio_key.
  apply (wp_attr _ _ p); [apply Hl|].
  destruct (getitem_Ok p i) as (pi & _ & Hgp); [lia|].
  rewrite Hgp. apply wp_lift_bind.
  apply (wp_attr _ _ wt); [apply Hl|].
  destruct (getitem_Ok wt i Hi) as (wi & Hnw & Hgw).
  rewrite Hgw. apply wp_lift_bind.
  destruct (wi =? 0) eqn:E.
  - apply wp_raise. apply Z.eqb_eq in E. subst wi. repeat split. exact Hnw.
  - apply wp_ret. split; [reflexivity|]. apply Z.eqb_neq in E. congruence.
Qed.

Lemma keyed_wp (positions : list nat) (w : world) :
  loaded c p wt (self w) -> Forall (fun i => (i < length wt)%nat) positions ->
  wp (keyed positions)
     (fun o w' => w' = w /\
                  match o with
                  | Ok ks => map fst ks = positions
                             /\ Forall (fun i => nth_error wt i <> Some 0) positions
                  | Raise e => e = ZeroDivisionError /\ In 0 wt
                  | OutOfFuel => False
                  end) w.
Proof.
  intros Hl Hpos. induction Hpos as [|i rest Hi Hrest IH]; simpl.
  - apply wp_ret. split; [reflexivity|]. split; [reflexivity|constructor].
  - apply wp_bind. eapply wp_mono; [apply ratio_key_wp; assumption|].
    intros o w1 [-> Hpost]. destruct o as [k|e|]; [| |destruct Hpost].
    + apply wp_bind. eapply wp_mono; [exact IH|].
      intros o w2 [-> Hpost2]. destruct o as [ks|e|]; [| |destruct Hpost2].
      * apply wp_ret. split; [reflexivity|]. destruct Hpost2 as [Hfst Hnz].
        split; [simpl; rewrite Hfst; reflexivity|]. constructor; assumption.
      * split; [reflexivity|exact Hpost2].
    + split; [reflexivity|]. destruct Hpost as [-> Hz].
      split; [reflexivity|]. eapply nth_error_In. exact Hz.
Qed.

Lemma greedy_wp (items : list nat) :
  forall (sol : list Z) (weight0 : Z) (w : world),
    loaded c p wt (self w) -> binary sol -> length sol = length wt ->
    NoDup items -> Forall (fun i => nth_error sol i = Some 0) items ->
    dot sol wt = weight0 -> (0 <= c -> weight0 <= c) ->
    wp (greedy items sol weight0)
       (fun o w' => w' = w /\
                    match o with
                    | Ok sol' => admissible c wt sol'
                    | _ => False
                    end) w.
Proof.
  induction items as [|i rest IH];
    intros sol weight0 w Hl Hb Hlen Hnd Hzero Hdot Hcap; simpl.
  - apply wp_ret. split; [reflexivity|]. subst weight0.
    unfold admissible. splits; assumption.
  - inversion Hnd as [|? ? Hnotin Hnd']; subst.
    inversion Hzero as [|? ? Hi Hzero']; subst.
    assert (i < length sol)%nat as Hlt by (apply nth_error_Some; congruence).
    apply (wp_attr _ _ wt); [apply Hl|].
    destruct (getitem_Ok wt i) as (wi & Hnw & Hgw); [lia|].
    rewrite Hgw. apply wp_lift_bind.
    apply (wp_attr _ _ c); [apply Hl|].
    destruct (dot sol wt + wi <=? c) eqn:E.
    + destruct (setitem_Ok sol i 1 Hlt) as (sol' & Hset & Hlen').
      rewrite Hset. apply wp_lift_bind.
      apply IH; try assumption.
      * apply (setitem_binary sol sol' i 1 Hset Hb). right. reflexivity.
      * lia.
      * apply Forall_forall. intros j Hj.
        rewrite (setitem_nth_error sol sol' i j 1 Hset).
        destruct (Nat.eqb j i) eqn:Eji.
        -- apply Nat.eqb_eq in Eji. subst j. contradiction.
        -- rewrite Forall_forall in Hzero'. apply Hzero'. exact Hj.
      * rewrite (setitem_dot sol sol' i 1 0 wt Hset Hi).
        rewrite (nth_error_nth wt i 0 Hnw). lia.
      * intros _. apply Z.leb_le in E. exact E.
    + apply IH; try assumption. reflexivity.
Qed.

Lemma generate_initial_solution_wp (w : world) :
  loaded c p wt (self w) ->
  wp generate_initial_solution
     (fun o w' => w' = w /\
                  match o with
                  | Ok sol => admissible c wt sol /\ ~ In 0 wt
                  | Raise e => e = ZeroDivisionError /\ In 0 wt
                  | OutOfFuel => False
                  end) w.
Proof.
  intros Hl. unfold generate_initial_solution.
  apply (wp_attr _ _ (len p)); [apply Hl|].
  assert (Z.to_nat (len p) = length wt) as En by (unfold len; lia).
  rewrite En.
  apply wp_bind. eapply wp_mono.
  { apply keyed_wp; [exact Hl|]. apply Forall_forall. intros i Hi.
    apply in_seq in Hi. lia. }
  intros o w1 [-> Hpost]. destruct o as [ks|e|]; [| |destruct Hpost].
  - destruct Hpost as [Hks Hnz].
    assert (~ In 0 wt) as Hnotin.
    { intros Hin. apply In_nth_error in Hin. destruct Hin as [i Hi].
      rewrite Forall_forall in Hnz. apply (Hnz i); [|exact Hi].
      apply in_seq. assert (nth_error wt i <> None) as Hn by congruence.
      apply nth_error_Some in Hn. lia. }
    assert (Permutation (map fst (sorted_desc ks)) (seq 0 (length wt))) as Hperm.
    { rewrite <- Hks. apply Permutation_map. apply sorted_desc_perm. }
    eapply wp_mono.
    { apply greedy_wp.
      - exact Hl.
      - apply binary_repeat_zero.
      - apply repeat_length.
      - eapply Permutation_NoDup; [apply Permutation_sym; exact Hperm|apply seq_NoDup].
      - apply Forall_forall. intros i Hi.
        apply (Permutation_in _ Hperm) in Hi. apply in_seq in Hi.
        apply nth_error_repeat. lia.
      - apply dot_repeat_zero.
      - trivial. }
    intros o w2 [-> Hpost2]. split; [reflexivity|].
    destruct o as [sol|e|]; [split; assumption|destruct Hpost2|destruct Hpost2].
  - split; [reflexivity|exact Hpost].
Qed.



End InitialSolution.

(** ** The initial temperature *)

Lemma dot_bound (nb p : list Z) :
  binary nb -> dot nb p <= sumZ (map Z.abs p).
Proof.
  intros Hb. revert p. induction Hb as [|x nb Hx _ IH]; intros p.
  - simpl. induction p as [|y p IHp]; simpl; lia.
  - destruct p as [|y p]; simpl; [lia|].
    specialize (IH p). destruct Hx as [-> | ->]; lia.
Qed.

Lemma sumZ_bound (l : list Z) (b : Z) :
  Forall (fun x => x <= b) l -> sumZ l <= len l * b.
Proof.
  unfold len. induction 1 as [|x l Hx _ IH]; simpl sumZ; simpl length; lia.
Qed.

Lemma mean_bound (l : list Z) (b : Z) :
  Forall (fun x => x <= b) l -> l <> [] ->
  (IZR (sumZ l) / IZR (len l) <= IZR b)%R.
Proof.
  intros Hl Hne. pose proof (sumZ_bound l b Hl) as Hs.
  assert (0 < len l) as Hpos.
  { unfold len. destruct l; [congruence|simpl length; lia]. }
  apply IZR_le in Hs. rewrite mult_IZR in Hs.
  apply IZR_lt in Hpos.
  apply Rmult_le_reg_r with (IZR (len l)); [exact Hpos|].
  unfold Rdiv. rewrite Rmult_assoc, Rinv_l by lra. lra.
Qed.

Section Run.

Variables (c : Z) (p wt : list Z).
Hypothesis Hpw : length p = length wt.

Lemma calculate_cost_eq (sol : list Z) (w : world) :
  loaded c p wt (self w) -> length sol = length wt ->
  calculate_cost sol w = (Ok (dot sol p), w).
Proof.
  intros (_ & _ & Hp & _) Hlen. unfold calculate_cost, bind, get_profit, attr, lift.
  rewrite Hp, sum_products_dot by lia. reflexivity.
Qed.

Lemma costs_of_eq (nbs : list (list Z)) (w : world) :
  loaded c p wt (self w) -> Forall (admissible c wt) nbs ->
  costs_of nbs w = (Ok (map (fun nb => dot nb p) nbs), w).
Proof.
  intros Hl Hnbs. induction Hnbs as [|nb rest Hnb _ IH]; [reflexivity|].
  simpl costs_of. unfold bind at 1.
  rewrite (calculate_cost_eq nb w Hl) by apply Hnb.
  unfold bind at 1. rewrite IH. reflexivity.
Qed.

Lemma costs_of_wp {B : Type} (nbs : list (list Z)) (k : list Z -> M B)
  (Q : outcome B -> world -> Prop) (w : world) :
  loaded c p wt (self w) -> Forall (admissible c wt) nbs ->
  wp (k (map (fun nb => dot nb p) nbs)) Q w ->
  wp (bind (costs_of nbs) k) Q w.
Proof.
  intros Hl Hnbs H. unfold wp, bind in *.
  rewrite (costs_of_eq nbs w Hl Hnbs). exact H.
Qed.

Lemma initial_temperature_wp (fuel : nat) (sol : list Z) (w : world) :
  loaded c p wt (self w) -> admissible c wt sol ->
  wp (initial_temperature fuel sol)
     (fun o w' =>
        frozen (self w') = frozen (self w)
        /\ acceptance_log w' = acceptance_log w
        /\ match o with
           | Ok _ => exists t, temperature (self w') = Some t
                               /\ (t <= temperature_bound p)%R
           | Raise _ => wt = []
           | OutOfFuel => (fuel <= length wt)%nat
           end) w.
Proof.
  intros Hl (Hb & Hlen & _). unfold initial_temperature.
  apply wp_bind. eapply wp_mono; [apply (generate_neighbors_wp c p wt); assumption|].
  intros o w1 [[Hself Hlog] Hpost].
  destruct o as [nbs|e|].
  - destruct Hpost as [_ Hnbs].
    apply costs_of_wp; [rewrite Hself; exact Hl|exact Hnbs|].
    assert (Forall (fun x => x <= sumZ (map Z.abs p)) (map (fun nb => dot nb p) nbs))
      as Hbound.
    { apply Forall_map. eapply Forall_impl; [|exact Hnbs].
      intros nb (Hbnb & _). apply dot_bound. exact Hbnb. }
    destruct (map (fun nb => dot nb p) nbs) as [|c0 cs] eqn:Ecosts.
    + unfold wp, modify_self. simpl. rewrite Hself, Hlog.
      splits; try reflexivity. exists 1%R. split; [reflexivity|].
      apply Rmax_l.
    + unfold wp, modify_self. simpl. rewrite Hself, Hlog.
      splits; try reflexivity. eexists. split; [reflexivity|].
      eapply Rle_trans; [|apply Rmax_r].
      apply (mean_bound (c0 :: cs)); [exact Hbound|discriminate].
  - rewrite Hself, Hlog. splits; try reflexivity.
    destruct Hpost as [Hs _]. rewrite Hs in Hlen. destruct wt; [reflexivity|discriminate].
  - rewrite Hself, Hlog. splits; try reflexivity. lia.
Qed.

End Run.

(** [run] up to the search loop: either it raises before the loop, because
    the lengths differ, an item weighs nothing or there is no item, or the
    loop starts from an admissible best solution with its cost, under a
    bounded temperature, with the configuration and the log untouched. *)
Lemma run_wp (fuel : nat) (f : instance_file) (w : world)
  (Q : outcome (list Z * Z) -> world -> Prop) :
  (forall (bs : list Z) (t : R) (w1 : world),
      length (file_profit f) = length (file_weight f) ->
      loaded (file_capacity f) (file_profit f) (file_weight f) (self w1) ->
      config (self w1) = config (self w) ->
      acceptance_log w1 = acceptance_log w ->
      admissible (file_capacity f) (file_weight f) bs ->
      temperature (self w1) = Some t -> (t <= temperature_bound (file_profit f))%R ->
      wp (search fuel fuel bs (dot bs (file_profit f)) 0) Q w1) ->
  (forall (e : exn) (w1 : world),
      length (file_profit f) <> length (file_weight f)
      \/ In 0 (file_weight f) \/ file_weight f = [] ->
      acceptance_log w1 = acceptance_log w -> Q (Raise e) w1) ->
  (forall w1 : world,
      length (file_profit f) = length (file_weight f) ->
      (fuel <= length (file_weight f))%nat ->
      acceptance_log w1 = acceptance_log w -> Q OutOfFuel w1) ->
  wp (run fuel f) Q w.
Proof.
  destruct f as [c p wt]. simpl. intros Hsearch Hraise Hfuel.
  unfold run, read_file. apply wp_bind. apply wp_modify_self.
  simpl file_capacity; simpl file_profit; simpl file_weight.
  destruct (len p =? len wt) eqn:Elen; simpl negb; cbv iota.
  2:{ apply wp_raise. apply Hraise; [|reflexivity].
      left. apply Z.eqb_neq in Elen. unfold len in Elen. lia. }
  apply wp_ret. apply Z.eqb_eq in Elen.
  assert (length p = length wt) as Hpw by (unfold len in Elen; lia).
  unfold calculate_number_of_neighbors. apply wp_modify_self.
  set (w0 := mkWorld _ _ _).
  assert (loaded c p wt (self w0)) as Hl0 by (repeat split).
  assert (config (self w0) = config (self w)) as Hc0 by reflexivity.
  assert (acceptance_log w0 = acceptance_log w) as Hlog0 by reflexivity.
  clearbody w0.
  apply wp_bind. eapply wp_mono; [apply (generate_initial_solution_wp c p wt Hpw); exact Hl0|].
  intros o w1 [-> Hsol].
  destruct o as [sol|e|];
    [|apply Hraise; [right; left; apply Hsol|exact Hlog0]|destruct Hsol].
  destruct Hsol as [Hsol _].
  apply wp_bind. eapply wp_mono; [apply (initial_temperature_wp c p wt Hpw); eassumption|].
  intros o w2 (Hfr & Hlog & Hpost).
  assert (config (self w2) = config (self w)) as Hc2.
  { rewrite <- Hc0. unfold config.
    destruct (frozen_config _ _ Hfr) as (-> & -> & -> & -> & _). reflexivity. }
  destruct o as [[]|e|].
  - destruct Hpost as (t & Ht & Hbound).
    assert (loaded c p wt (self w2)) as Hl2 by (eapply frozen_loaded; eassumption).
    apply (calculate_cost_wp c p wt Hpw); [exact Hl2|apply Hsol|].
    apply (Hsearch sol t w2); try assumption. congruence.
  - apply Hraise; [right; right; exact Hpost|congruence].
  - apply Hfuel; [exact Hpw|exact Hpost|congruence].
Qed.

(** ** The whole run *)

(** What every run leaves behind: the temperatures logged by the acceptance
    criterion are positive when the cooling rate and the floor are not
    negative, and a returned pair is an admissible solution with its cost. *)
Lemma run_invariants (fuel : nat) (f : instance_file) (w : world) :
  wp (run fuel f)
     (fun o w' =>
        (exists new,
            acceptance_log w' = acceptance_log w ++ new
            /\ ((0 <= cooling_rate (self w))%R -> (0 <= T_min (self w))%R ->
                Forall (Rlt 0) new))
        /\ match o with
           | Ok (bs, bc) =>
               length (file_profit f) = length (file_weight f)
               /\ loaded (file_capacity f) (file_profit f) (file_weight f) (self w')
               /\ admissible (file_capacity f) (file_weight f) bs
               /\ dot bs (file_profit f) = bc
           | _ => True
           end) w.
Proof.
  assert (forall w1 : world,
             acceptance_log w1 = acceptance_log w ->
             exists new,
               acceptance_log w1 = acceptance_log w ++ new
               /\ ((0 <= cooling_rate (self w))%R -> (0 <= T_min (self w))%R ->
                   Forall (Rlt 0) new)) as Hquiet.
  { intros w1 H. exists []. rewrite app_nil_r. split; [exact H|]. intros; constructor. }
  apply run_wp.
  - intros bs t w1 Hpw Hl Hc Hlog Hbs Ht _.
    eapply wp_mono.
    { apply (search_wp _ _ _ Hpw fuel fuel bs _ 0 t w1 Hl Hbs eq_refl Ht). }
    intros o w2 (Hfr & (new & Hlog2 & Hnew) & Hpost).
    unfold config in Hc. injection Hc as Hr _ Hm _.
    split.
    + exists new. split; [congruence|]. rewrite <- Hr, <- Hm. exact Hnew.
    + destruct o as [[bs' bc']|e|]; try exact I.
      destruct Hpost as [Hadm Hdot]. splits; try assumption.
      eapply frozen_loaded; eassumption.
  - intros e w1 _ Hlog. split; [apply Hquiet; exact Hlog|exact I].
  - intros w1 _ _ Hlog. split; [apply Hquiet; exact Hlog|exact I].
Qed.

Lemma admissible_feasible (c : Z) (wt nb : list Z) :
  0 <= c -> admissible c wt nb -> feasible c wt nb = true.
Proof.
  intros Hc (_ & Hlen & Hcap). unfold feasible.
  rewrite sum_products_dot by lia. apply Z.leb_le. apply Hcap. exact Hc.
Qed.


Lemma calculate_cost_pure (sol : list Z) (w : world) :
  snd (calculate_cost sol w) = w.
Proof.
  unfold calculate_cost, bind, get_profit, attr, lift.
  destruct (profit (self w)); reflexivity.
Qed.

Lemma unit_draw_below_one (r : Z) : (IZR (r mod 2 ^ 53) / IZR (2 ^ 53) < 1)%R.
Proof.
  pose proof (Z.mod_pos_bound r (2 ^ 53) ltac:(lia)) as [_ Hhi].
  apply IZR_lt in Hhi.
  assert (0 < IZR (2 ^ 53))%R as Hpos by (apply IZR_lt; lia).
  apply Rmult_lt_reg_r with (IZR (2 ^ 53)); [exact Hpos|].
  unfold Rdiv. rewrite Rmult_assoc, Rinv_l by lra. lra.
Qed.

(** A candidate of the same cost is accepted whatever the draw. *)
Lemma check_acceptance_same_cost (c0 : Z) (t : R) (w : world) :
  temperature (self w) = Some t -> t <> 0%R ->
  check_acceptance c0 c0 w
  = (Ok true, mkWorld (self w) (fun k => random_state w (S k))
                      (acceptance_log w ++ [t])).
Proof.
  intros Ht Hnz. unfold check_acceptance, bind at 1, log_acceptance.
  rewrite Ht. rewrite Z.gtb_ltb, Z.ltb_irrefl.
  unfold bind at 1, get_temperature, attr. simpl self. rewrite Ht.
  destruct (Req_dec_T t 0) as [Hz|_]; [contradiction|].
  assert (exp (IZR (c0 - c0) / t) = 1%R) as ->.
  { rewrite Z.sub_diag. unfold Rdiv. rewrite Rmult_0_l. apply exp_0. }
  unfold random, bind, next_raw, ret. cbv beta iota.
  destruct (Rlt_dec _ 1) as [_|Hge]; [reflexivity|].
  exfalso. apply Hge. apply unit_draw_below_one.
Qed.

Lemma cooling_eq (t : R) (w : world) :
  temperature (self w) = Some t -> (0 <= t)%R -> (0 <= cooling_rate (self w))%R ->
  cooling w = (Ok (cool (cooling_rate (self w)) t),
               mkWorld (set_temperature (cool (cooling_rate (self w)) t) (self w))
                       (random_state w) (acceptance_log w)).
Proof.
  intros Ht Hpos Hrate. unfold cooling, bind at 1, get_temperature, attr.
  rewrite Ht. unfold bind at 1, get_self.
  destruct (Rlt_dec t 0) as [Hneg|_]; [lra|].
  pose proof (cool_denominator (cooling_rate (self w)) t Hrate) as Hd.
  destruct (Req_dec_T _ 0) as [Hz|_]; [lra|]. reflexivity.
Qed.

Lemma search_enter (fuel passes : nat) (bs : list Z) (bc nic : Z) (t : R) (w : world) :
  temperature (self w) = Some t -> (t > T_min (self w))%R ->
  nic < no_improve_limit (self w) ->
  search fuel (S passes) bs bc nic w
  = bind (for_iterations fuel (Z.to_nat (iter_max (self w)))
            (mkLocals bs bc bs bc nic))
         (fun st => search fuel passes (best_solution st) (best_cost st)
                           (no_improve_count st)) w.
Proof.
  intros Ht Hgt Hnic. simpl search. unfold bind at 1, get_temperature, attr.
  rewrite Ht. unfold bind at 1, get_self.
  destruct (Rgt_dec t (T_min (self w))) as [_|Hle]; [|contradiction].
  apply Z.ltb_lt in Hnic. rewrite Hnic. reflexivity.
Qed.

Lemma search_stagnant (fuel passes : nat) (bs : list Z) (bc nic : Z) (t : R) (w : world) :
  temperature (self w) = Some t -> no_improve_limit (self w) <= nic ->
  search fuel (S passes) bs bc nic w = (Ok (bs, bc), w).
Proof.
  intros Ht Hnic. simpl. unfold bind, get_temperature, attr, get_self. rewrite Ht.
  apply Z.ltb_ge in Hnic. rewrite Hnic, andb_false_r. reflexivity.
Qed.

Lemma wp_search_enter (fuel passes : nat) (bs : list Z) (bc nic : Z) (t : R) (w : world)
  (Q : outcome (list Z * Z) -> world -> Prop) :
  temperature (self w) = Some t -> (t > T_min (self w))%R ->
  nic < no_improve_limit (self w) ->
  wp (bind (for_iterations fuel (Z.to_nat (iter_max (self w)))
              (mkLocals bs bc bs bc nic))
           (fun st => search fuel passes (best_solution st) (best_cost st)
                             (no_improve_count st))) Q w ->
  wp (search fuel (S passes) bs bc nic) Q w.
Proof.
  intros Ht Hgt Hnic H. unfold wp in *.
  rewrite (search_enter fuel passes bs bc nic t w Ht Hgt Hnic). exact H.
Qed.

Lemma wp_search_stagnant (fuel passes : nat) (bs : list Z) (bc nic : Z) (t : R) (w : world)
  (Q : outcome (list Z * Z) -> world -> Prop) :
  temperature (self w) = Some t -> no_improve_limit (self w) <= nic ->
  Q (Ok (bs, bc)) w -> wp (search fuel (S passes) bs bc nic) Q w.
Proof.
  intros Ht Hnic H. unfold wp.
  rewrite (search_stagnant fuel passes bs bc nic t w Ht Hnic). exact H.
Qed.

Lemma wp_check_same_cost (c0 : Z) (t : R) (w : world)
  (Q : outcome bool -> world -> Prop) :
  temperature (self w) = Some t -> t <> 0%R ->
  Q (Ok true) (mkWorld (self w) (fun k => random_state w (S k))
                       (acceptance_log w ++ [t])) ->
  wp (check_acceptance c0 c0) Q w.
Proof.
  intros Ht Hnz H. unfold wp. rewrite (check_acceptance_same_cost c0 t w Ht Hnz).
  exact H.
Qed.

Lemma wp_cooling_ok (t : R) (w : world) (Q : outcome R -> world -> Prop) :
  temperature (self w) = Some t -> (0 <= t)%R -> (0 <= cooling_rate (self w))%R ->
  Q (Ok (cool (cooling_rate (self w)) t))
    (mkWorld (set_temperature (cool (cooling_rate (self w)) t) (self w))
             (random_state w) (acceptance_log w)) ->
  wp cooling Q w.
Proof.
  intros Ht Hpos Hrate H. unfold wp. rewrite (cooling_eq t w Ht Hpos Hrate). exact H.
Qed.

(** ** Runs on concrete inputs *)

(** Evaluate a computation that does not compare real numbers. *)
Ltac eval_in r :=
  cbv -[IZR Rdiv Rgt_dec Rlt_dec Req_dec_T exp sqrt Rplus Rmult Rinv Rgt Rlt cool] in r.

(** Run the first computation of a sequence and continue from its result. *)
Ltac run_step :=
  repeat match goal with |- wp (bind _ _) _ _ => apply wp_bind end;
  unfold wp at 1;
  match goal with
  | |- context [fst (?m ?w)] =>
      let r := fresh "r" in
      set (r := m w); eval_in r; subst r; cbv beta iota delta [fst snd]
  end.

Ltac tidy :=
  cbn [self random_state acceptance_log solution cost best_solution best_cost
       no_improve_count temperature cooling_rate iter_max T_min no_improve_limit
       neighbors_amount capacity amount profit weight set_temperature app].

(** The greedy construction on capacity 10, profits 60, 100, 120 and weights
    10, 20, 30: only the first item fits. *)
Example initial_solution_scenario (w : world) :
  fst ((read_file (mkFile 10 [60; 100; 120] [10; 20; 30]) ;;;
        generate_initial_solution) w) = Ok [1; 0; 0].
Proof. reflexivity. Qed.

(** On [twin_items] the first neighborhood costs 5, the only neighbor visited
    by the search has the cost of the current solution and is accepted at
    temperature 5, and the stagnation limit then stops the loop. *)
Lemma run_twin_items :
  wp (run 3 twin_items)
     (fun o w' => o = Ok ([1; 0], 5) /\ acceptance_log w' = [(5 / 1)%R])
     one_pass_world.
Proof.
  unfold run.
  run_step. run_step. run_step. run_step. run_step.
  apply (wp_search_enter _ _ _ _ _ (5 / 1)%R); tidy;
    [reflexivity|unfold Rgt; lra|lia|].
  change (Z.to_nat 1) with 1%nat. cbn [for_iterations].
  run_step. cbn [for_neighbors]. unfold visit. run_step. tidy.
  apply wp_bind.
  apply (wp_check_same_cost _ (5 / 1)%R); tidy; [reflexivity|lra|].
  change (5 >? 5) with false. cbv iota. apply wp_ret. apply wp_ret.
  apply wp_bind.
  apply (wp_cooling_ok (5 / 1)%R); tidy; [reflexivity|lra|lra|].
  apply wp_ret. tidy.
  apply (wp_search_stagnant _ _ _ _ _ (cool (2 / 100) (5 / 1))); tidy;
    [reflexivity|lia|].
  split; reflexivity.
Qed.

(** With a stagnation limit of zero the loop is never entered and the
    initial solution is returned. *)
Lemma run_unchecked :
  fst (run 3 twin_items unchecked_world) = Ok ([1; 0], 5).
Proof.
  change (wp (run 3 twin_items) (fun o _ => o = Ok ([1; 0], 5)) unchecked_world).
  unfold run.
  run_step. run_step. run_step. run_step. run_step.
  apply (wp_search_stagnant _ _ _ _ _ (5 / 1)%R); tidy; [reflexivity|lia|].
  reflexivity.
Qed.

(** ** Main results *)

Lemma run_result (fuel : nat) (f : instance_file) (w : world) (bs : list Z) (bc : Z) :
  fst (run fuel f w) = Ok (bs, bc) ->
  length (file_profit f) = length (file_weight f)
  /\ loaded (file_capacity f) (file_profit f) (file_weight f) (self (snd (run fuel f w)))
  /\ admissible (file_capacity f) (file_weight f) bs
  /\ dot bs (file_profit f) = bc.
Proof.
  intros Hrun. pose proof (run_invariants fuel f w) as H. unfold wp in H.
  rewrite Hrun in H. apply H.
Qed.

(** C1. Whenever [run] returns a pair [(best_solution, best_cost)] for an
    instance whose capacity is not negative, the returned solution is
    feasible: the sum of [best_solution[i] * weight[i]] is at most the
    capacity.  This holds for every configuration, generator and fuel. *)
Theorem run_returns_feasible_solution
  (fuel : nat) (f : instance_file) (w : world) (bs : list Z) (bc : Z) :
  0 <= file_capacity f ->
  fst (run fuel f w) = Ok (bs, bc) ->
  feasible (file_capacity f) (file_weight f) bs = true.
Proof.
  intros Hc Hrun. destruct (run_result fuel f w bs bc Hrun) as (_ & _ & Hadm & _).
  apply admissible_feasible; assumption.
Qed.

Lemma run_returns_feasible_solution_witness :
  0 <= file_capacity twin_items
  /\ fst (run 3 twin_items one_pass_world) = Ok ([1; 0], 5)
  /\ feasible (file_capacity twin_items) (file_weight twin_items) [1; 0] = true.
Proof.
  assert (0 <= file_capacity twin_items) as Hc by (simpl; lia).
  split; [exact Hc|]. split; [exact (proj1 run_twin_items)|].
  exact (run_returns_feasible_solution 3 twin_items one_pass_world [1; 0] 5 Hc
           (proj1 run_twin_items)).
Defined.

Lemma calculate_cost_profit (sol : list Z) (w1 w2 : world) :
  profit (self w1) = profit (self w2) ->
  fst (calculate_cost sol w1) = fst (calculate_cost sol w2).
Proof.
  intros E. unfold calculate_cost, bind, get_profit, attr, lift. rewrite E.
  destruct (profit (self w2)); reflexivity.
Qed.

Lemma check_acceptance_self (c0 n0 : Z) (w : world) :
  self (snd (check_acceptance c0 n0 w)) = self w.
Proof.
  unfold check_acceptance, bind at 1, log_acceptance.
  destruct (n0 >? c0); [reflexivity|].
  unfold bind at 1, get_temperature, attr. cbn [self].
  destruct (temperature (self w)) as [t|]; [|reflexivity].
  destruct (Req_dec_T t 0); reflexivity.
Qed.

(** Every update of the pair made by the visit of a neighbor keeps
    [best_cost] equal to the cost of [best_solution]. *)
Lemma visit_keeps_best_cost (st st' : locals) (nb : list Z) (w : world) :
  fst (calculate_cost (best_solution st) w) = Ok (best_cost st) ->
  fst (visit st nb w) = Ok st' ->
  fst (calculate_cost (best_solution st') (snd (visit st nb w))) = Ok (best_cost st').
Proof.
  intros Hbest Hvisit. unfold visit, bind in *.
  pose proof (calculate_cost_pure nb w) as Hpure.
  destruct (calculate_cost nb w) as [[new_cost|e|] w1] eqn:Ecost;
    simpl in Hpure; subst w1; try discriminate.
  pose proof (check_acceptance_self (cost st) new_cost w) as Hself.
  destruct (check_acceptance (cost st) new_cost w) as [[accepted|e|] w2] eqn:Eacc;
    simpl in Hself; try discriminate.
  assert (profit (self w2) = profit (self w)) as Hp by (rewrite Hself; reflexivity).
  destruct accepted.
  - destruct (new_cost >? best_cost st).
    + simpl in Hvisit. injection Hvisit as <-. simpl.
      rewrite (calculate_cost_profit nb _ w).
      * rewrite Ecost. reflexivity.
      * simpl. rewrite Hself. reflexivity.
    + simpl in Hvisit. injection Hvisit as <-. simpl.
      rewrite (calculate_cost_profit _ w2 w Hp). exact Hbest.
  - simpl in Hvisit. injection Hvisit as <-. simpl.
    rewrite (calculate_cost_profit _ w2 w Hp). exact Hbest.
Qed.

(** C2. Whenever [run] returns [(best_solution, best_cost)], [best_cost] is
    [calculate_cost(best_solution)], the sum of [best_solution[i] * profit[i]];
    and every visit of a neighbor, the only place where the pair is updated,
    keeps [best_cost] equal to the cost of [best_solution]. *)
Theorem run_best_cost_is_cost_of_best_solution :
  (forall (fuel : nat) (f : instance_file) (w : world) (bs : list Z) (bc : Z),
      fst (run fuel f w) = Ok (bs, bc) ->
      fst (calculate_cost bs (snd (run fuel f w))) = Ok bc
      /\ sum_products bs (file_profit f) = Ok bc)
  /\ (forall (st st' : locals) (nb : list Z) (w : world),
         fst (calculate_cost (best_solution st) w) = Ok (best_cost st) ->
         fst (visit st nb w) = Ok st' ->
         fst (calculate_cost (best_solution st') (snd (visit st nb w)))
         = Ok (best_cost st')).
Proof.
  split.
  - intros fuel f w bs bc Hrun.
    destruct (run_result fuel f w bs bc Hrun) as (Hpw & Hl & Hadm & Hdot).
    assert (length bs = length (file_weight f)) as Hlen by apply Hadm.
    split.
    + rewrite (calculate_cost_eq _ _ _ Hpw bs _ Hl Hlen). simpl. congruence.
    + rewrite sum_products_dot by lia. congruence.
  - exact visit_keeps_best_cost.
Qed.

Lemma run_best_cost_is_cost_of_best_solution_witness :
  fst (run 3 twin_items one_pass_world) = Ok ([1; 0], 5)
  /\ fst (calculate_cost [1; 0] (snd (run 3 twin_items one_pass_world))) = Ok 5
  /\ sum_products [1; 0] (file_profit twin_items) = Ok 5.
Proof.
  split; [exact (proj1 run_twin_items)|].
  exact (proj1 run_best_cost_is_cost_of_best_solution 3%nat twin_items one_pass_world
           [1; 0] 5 (proj1 run_twin_items)).
Defined.









(** C5, what the code does on an instance without items: [generate_neighbors],
    called for the initial temperature, asks [random.randint(0, -1)], which
    raises [ValueError] before it draws; [run] returns nothing. *)
Theorem run_empty_instance_raises (fuel : nat) (c : Z) (w : world) :
  fst (run fuel (mkFile c [] []) w) = Raise ValueError
  /\ random_state (snd (run fuel (mkFile c [] []) w)) = random_state w.
Proof. split; reflexivity. Qed.

(** C6, what the code does on an item of weight zero: the sort key
    [profit[i] / weight[i]] raises [ZeroDivisionError], in the constructor of
    the initial solution and so in [run]. *)
Theorem initial_solution_zero_weight_raises (fuel : nat) (w : world) :
  fst ((read_file weightless_item ;;; generate_initial_solution) w)
  = Raise ZeroDivisionError
  /\ fst (run fuel weightless_item w) = Raise ZeroDivisionError.
Proof. split; reflexivity. Qed.







Lemma visit_same_cost (st : locals) (nb : list Z) (t : R) (w : world) :
  temperature (self w) = Some t -> t <> 0%R ->
  fst (calculate_cost nb w) = Ok (cost st) -> cost st <= best_cost st ->
  visit st nb w
  = (Ok (mkLocals nb (cost st) (best_solution st) (best_cost st)
                  (no_improve_count st + 1)),
     mkWorld (self w) (fun k => random_state w (S k)) (acceptance_log w ++ [t])).
Proof.
  intros Ht Hnz Hcost Hle. unfold visit, bind at 1.
  pose proof (calculate_cost_pure nb w) as Hpure.
  destruct (calculate_cost nb w) as [o w1]. simpl in Hcost, Hpure. subst o w1.
  unfold bind at 1. rewrite (check_acceptance_same_cost (cost st) t w Ht Hnz).
  assert ((cost st >? best_cost st) = false) as ->.
  { rewrite Z.gtb_ltb. apply Z.ltb_ge. exact Hle. }
  reflexivity.
Qed.

(** C10. At a strictly positive temperature a candidate whose cost equals
    the current cost is accepted whatever the generator draws; in the visit
    of such a neighbor, the current cost being at most the best cost as it is
    throughout [run], the neighbor becomes the current solution and the
    stagnation counter grows by one. *)
Theorem equal_cost_always_accepted (st : locals) (nb : list Z) (t : R) (w : world) :
  temperature (self w) = Some t -> (0 < t)%R ->
  fst (check_acceptance (cost st) (cost st) w) = Ok true
  /\ (fst (calculate_cost nb w) = Ok (cost st) -> cost st <= best_cost st ->
      fst (visit st nb w)
      = Ok (mkLocals nb (cost st) (best_solution st) (best_cost st)
                     (no_improve_count st + 1))).
Proof.
  intros Ht Hpos. assert (t <> 0%R) as Hnz by lra. split.
  - rewrite (check_acceptance_same_cost (cost st) t w Ht Hnz). reflexivity.
  - intros Hcost Hle. rewrite (visit_same_cost st nb t w Ht Hnz Hcost Hle).
    reflexivity.
Qed.

Lemma equal_cost_always_accepted_witness :
  temperature (self warm_world) = Some 5%R
  /\ (0 < 5)%R
  /\ fst (calculate_cost [0; 1] warm_world) = Ok 5
  /\ fst (check_acceptance 5 5 warm_world) = Ok true
  /\ fst (visit (mkLocals [1; 0] 5 [1; 0] 5 0) [0; 1] warm_world)
     = Ok (mkLocals [0; 1] 5 [1; 0] 5 1).
Proof.
  assert (temperature (self warm_world) = Some 5%R) as Ht by reflexivity.
  assert (0 < 5)%R as Hpos by lra.
  assert (fst (calculate_cost [0; 1] warm_world) = Ok 5) as Hcost by reflexivity.
  split; [exact Ht|]. split; [exact Hpos|]. split; [exact Hcost|].
  destruct (equal_cost_always_accepted (mkLocals [1; 0] 5 [1; 0] 5 0) [0; 1] 5
              warm_world Ht Hpos) as [Haccept Hvisit].
  split; [exact Haccept|]. apply Hvisit; [exact Hcost|]. simpl. lia.
Defined.

(** * Further properties of the code *)

(** ** Sequencing *)

Lemma bind_Ok_inv {A B : Type} (m : M A) (k : A -> M B) (w w' : world) (b : B) :
  bind m k w = (Ok b, w') ->
  exists (a : A) (w1 : world), m w = (Ok a, w1) /\ k a w1 = (Ok b, w').
Proof.
  unfold bind. destruct (m w) as [[a|e|] w1]; intros H; try discriminate.
  exists a, w1. split; [reflexivity|exact H].
Qed.

Lemma bind_eq {A B : Type} (m : M A) (k : A -> M B) (w w1 : world) (a : A) :
  m w = (Ok a, w1) -> bind m k w = k a w1.
Proof. intros H. unfold bind. rewrite H. reflexivity. Qed.

Lemma quiet_ret {A : Type} (a : A) : quiet (ret a).
Proof. intros w. apply only_rng_refl. Qed.

Lemma quiet_raise {A : Type} (e : exn) : quiet (@raise A e).
Proof. intros w. apply only_rng_refl. Qed.

Lemma quiet_diverge {A : Type} : quiet (@diverge A).
Proof. intros w. apply only_rng_refl. Qed.

Lemma quiet_lift {A : Type} (o : outcome A) : quiet (lift o).
Proof. intros w. apply only_rng_refl. Qed.

Lemma quiet_attr {A : Type} (f : SimulatedAnnealing -> option A) (e : exn) :
  quiet (attr f e).
Proof. intros w. unfold attr. destruct (f (self w)); apply only_rng_refl. Qed.

Lemma quiet_get_self : quiet get_self.
Proof. intros w. apply only_rng_refl. Qed.

Lemma quiet_next_raw : quiet next_raw.
Proof. intros w. apply only_rng_draw. Qed.

Lemma quiet_bind {A B : Type} (m : M A) (k : A -> M B) :
  quiet m -> (forall a, quiet (k a)) -> quiet (bind m k).
Proof.
  intros Hm Hk w. specialize (Hm w). unfold bind.
  destruct (m w) as [[a|e|] w1]; simpl in Hm; simpl; try exact Hm.
  eapply only_rng_trans; [exact Hm|apply Hk].
Qed.

Lemma quiet_randint (a b : Z) : quiet (randint a b).
Proof.
  unfold randint. destruct (b <? a); [apply quiet_raise|].
  apply quiet_bind; [apply quiet_next_raw|intros r; apply quiet_ret].
Qed.

Lemma quiet_choice {A : Type} (l : list A) : quiet (choice l).
Proof.
  unfold choice. destruct l; [apply quiet_raise|].
  apply quiet_bind; [apply quiet_next_raw|intros r; apply quiet_lift].
Qed.

Lemma quiet_repair (fuel : nat) :
  forall (nb : list Z) (weight0 : Z), quiet (repair fuel nb weight0).
Proof.
  induction fuel as [|fuel IH]; intros nb weight0; simpl; [apply quiet_diverge|].
  apply quiet_bind; [apply quiet_attr|]. intros c.
  destruct (weight0 >? c); [|apply quiet_ret].
  destruct (indices_of_ones nb) as [|i0 rest]; [apply quiet_ret|].
  apply (quiet_bind (choice (i0 :: rest))); [apply quiet_choice|]. intros i.
  apply quiet_bind; [apply quiet_lift|]. intros nb'.
  apply quiet_bind; [apply quiet_attr|]. intros wt.
  apply quiet_bind; [apply quiet_lift|]. intros wi. apply IH.
Qed.

Lemma quiet_perturb (fuel : nat) (sol : list Z) : quiet (perturb fuel sol).
Proof.
  unfold perturb.
  apply quiet_bind; [apply quiet_randint|]. intros i.
  apply quiet_bind; [apply quiet_lift|]. intros x.
  apply quiet_bind; [apply quiet_lift|]. intros nb.
  apply quiet_bind; [apply quiet_attr|]. intros wt.
  apply quiet_bind; [apply quiet_lift|]. intros weight0. apply quiet_repair.
Qed.

Lemma quiet_collect_neighbors (fuel count : nat) (sol : list Z) :
  forall acc : list (list Z), quiet (collect_neighbors fuel count sol acc).
Proof.
  induction count as [|count IH]; intros acc; simpl; [apply quiet_ret|].
  apply quiet_bind; [apply quiet_perturb|]. intros nb. apply IH.
Qed.

Lemma quiet_generate_neighbors (fuel : nat) (sol : list Z) :
  quiet (generate_neighbors fuel sol).
Proof.
  unfold generate_neighbors. apply quiet_bind; [apply quiet_get_self|].
  intros s. apply quiet_collect_neighbors.
Qed.

Lemma quiet_Ok {A : Type} (m : M A) (w w' : world) (o : outcome A) :
  quiet m -> m w = (o, w') -> self w' = self w /\ acceptance_log w' = acceptance_log w.
Proof. intros Hq H. specialize (Hq w). rewrite H in Hq. exact Hq. Qed.

(** ** What a visit can do *)

Lemma calculate_cost_Ok_inv (sol : list Z) (w w' : world) (nc : Z) :
  calculate_cost sol w = (Ok nc, w') ->
  w' = w /\ exists p, profit (self w) = Some p /\ sum_products sol p = Ok nc.
Proof.
  unfold calculate_cost, bind, get_profit, attr, lift.
  destruct (profit (self w)) as [p|]; [|discriminate].
  intros H. injection H as H1 H2. split; [congruence|]. exists p. split; [reflexivity|exact H1].
Qed.

Lemma check_acceptance_log (c0 n0 : Z) (w : world) :
  acceptance_log (snd (check_acceptance c0 n0 w))
  = acceptance_log w ++ match temperature (self w) with
                        | Some t => [t]
                        | None => []
                        end.
Proof.
  unfold check_acceptance, bind at 1, log_acceptance.
  destruct (n0 >? c0); [reflexivity|].
  unfold bind at 1, get_temperature, attr. cbn [self].
  destruct (temperature (self w)) as [t|]; [|reflexivity].
  destruct (Req_dec_T t 0); reflexivity.
Qed.

Lemma visit_Ok_inv (st st' : locals) (nb : list Z) (w w' : world) :
  visit st nb w = (Ok st', w') ->
  acceptance_log w' = acceptance_log w ++ match temperature (self w) with
                                          | Some t => [t]
                                          | None => []
                                          end
  /\ exists nc p,
      profit (self w) = Some p /\ sum_products nb p = Ok nc
      /\ ((st' = st /\ self w' = self w)
          \/ (nc > best_cost st /\ st' = mkLocals nb nc nb nc 0
              /\ self w' = record_best nb nc (self w))
          \/ (nc <= best_cost st
              /\ st' = mkLocals nb nc (best_solution st) (best_cost st)
                                (no_improve_count st + 1)
              /\ self w' = self w)).
Proof.
  intros H. unfold visit in H.
  apply bind_Ok_inv in H. destruct H as (nc & w1 & Hcost & H).
  apply calculate_cost_Ok_inv in Hcost. destruct Hcost as (-> & p & Hp & Hnc).
  apply bind_Ok_inv in H. destruct H as (accepted & w2 & Hacc & H).
  pose proof (check_acceptance_self (cost st) nc w) as Hself.
  pose proof (check_acceptance_log (cost st) nc w) as Hlog.
  rewrite Hacc in Hself, Hlog. simpl in Hself, Hlog.
  destruct accepted.
  - destruct (nc >? best_cost st) eqn:Ebest.
    + unfold bind, modify_self, ret in H. injection H as <- <-.
      split; [exact Hlog|]. exists nc, p. split; [exact Hp|]. split; [exact Hnc|].
      right. left. split; [apply Z.gtb_gt; exact Ebest|].
      split; [reflexivity|]. simpl. rewrite Hself. reflexivity.
    + unfold ret in H. injection H as <- <-.
      split; [exact Hlog|]. exists nc, p. split; [exact Hp|]. split; [exact Hnc|].
      right. right. rewrite Z.gtb_ltb in Ebest. apply Z.ltb_ge in Ebest.
      split; [exact Ebest|]. split; [reflexivity|exact Hself].
  - unfold ret in H. injection H as <- <-.
    split; [exact Hlog|]. exists nc, p. split; [exact Hp|]. split; [exact Hnc|].
    left. split; [reflexivity|exact Hself].
Qed.

Lemma cooling_Ok_inv (t' : R) (w w' : world) :
  cooling w = (Ok t', w') ->
  exists t, temperature (self w) = Some t
            /\ t' = cool (cooling_rate (self w)) t
            /\ w' = mkWorld (set_temperature t' (self w)) (random_state w)
                            (acceptance_log w).
Proof.
  intros H. destruct (temperature (self w)) as [t|] eqn:Ht.
  - pose proof (cooling_wp t w Ht) as Hwp. unfold wp in Hwp. rewrite H in Hwp.
    simpl in Hwp. destruct Hwp as [-> ->]. exists t. repeat split.
  - unfold cooling, bind, get_temperature, attr in H. rewrite Ht in H. discriminate.
Qed.

(** ** Invariants of the search loop

    A property of the local variables and of the object that survives a
    cooling, the recording of a better neighbor, the acceptance of another
    one and the restart of a pass from the best solution survives the whole
    search. *)

Section SearchInvariant.

Variable Inv : locals -> SimulatedAnnealing -> Prop.

Hypothesis Inv_cooling :
  forall st s t, Inv st s -> Inv st (set_temperature t s).

Hypothesis Inv_improve :
  forall st s nb nc p,
    Inv st s -> profit s = Some p -> sum_products nb p = Ok nc ->
    nc > best_cost st ->
    Inv (mkLocals nb nc nb nc 0) (record_best nb nc s).

Hypothesis Inv_accept :
  forall st s nb nc p,
    Inv st s -> profit s = Some p -> sum_products nb p = Ok nc ->
    nc <= best_cost st ->
    Inv (mkLocals nb nc (best_solution st) (best_cost st) (no_improve_count st + 1)) s.

Hypothesis Inv_restart :
  forall st s,
    Inv st s ->
    Inv (mkLocals (best_solution st) (best_cost st) (best_solution st) (best_cost st)
                  (no_improve_count st)) s.

Lemma visit_invariant (st st' : locals) (nb : list Z) (w w' : world) :
  Inv st (self w) -> visit st nb w = (Ok st', w') -> Inv st' (self w').
Proof.
  intros HI H. apply visit_Ok_inv in H.
  destruct H as (_ & nc & p & Hp & Hnc & [(-> & ->)|[(Hgt & -> & ->)|(Hle & -> & ->)]]).
  - exact HI.
  - eapply Inv_improve; eassumption.
  - eapply Inv_accept; eassumption.
Qed.

Lemma for_neighbors_invariant (nbs : list (list Z)) :
  forall (st st' : locals) (w w' : world),
    Inv st (self w) -> for_neighbors nbs st w = (Ok st', w') -> Inv st' (self w').
Proof.
  induction nbs as [|nb rest IH]; intros st st' w w' HI H; simpl in H.
  - unfold ret in H. injection H as <- <-. exact HI.
  - apply bind_Ok_inv in H. destruct H as (st1 & w1 & Hv & H).
    eapply IH; [|exact H]. eapply visit_invariant; eassumption.
Qed.

Lemma for_iterations_invariant (fuel count : nat) :
  forall (st st' : locals) (w w' : world),
    Inv st (self w) -> for_iterations fuel count st w = (Ok st', w') ->
    Inv st' (self w').
Proof.
  induction count as [|count IH]; intros st st' w w' HI H; simpl in H.
  - unfold ret in H. injection H as <- <-. exact HI.
  - apply bind_Ok_inv in H. destruct H as (nbs & w1 & Hg & H).
    apply (quiet_Ok _ _ _ _ (quiet_generate_neighbors fuel (solution st))) in Hg.
    destruct Hg as [Hself _].
    apply bind_Ok_inv in H. destruct H as (st1 & w2 & Hn & H).
    apply bind_Ok_inv in H. destruct H as (t' & w3 & Hc & H).
    apply cooling_Ok_inv in Hc. destruct Hc as (t & _ & _ & ->).
    eapply IH; [|exact H]. simpl. apply Inv_cooling.
    eapply for_neighbors_invariant; [|exact Hn]. rewrite Hself. exact HI.
Qed.

Lemma search_invariant (fuel passes : nat) :
  forall (bs bs' : list Z) (bc bc' nic : Z) (w w' : world),
    Inv (mkLocals bs bc bs bc nic) (self w) ->
    search fuel passes bs bc nic w = (Ok (bs', bc'), w') ->
    exists nic', Inv (mkLocals bs' bc' bs' bc' nic') (self w').
Proof.
  induction passes as [|passes IH]; intros bs bs' bc bc' nic w w' HI H; simpl in H.
  - discriminate.
  - apply bind_Ok_inv in H. destruct H as (t & w1 & Ht & H).
    assert (w1 = w) as ->.
    { unfold get_temperature, attr in Ht.
      destruct (temperature (self w)); [|discriminate]. congruence. }
    unfold bind at 1, get_self in H.
    destruct ((if Rgt_dec t (T_min (self w)) then true else false)
              && (nic <? no_improve_limit (self w))).
    + apply bind_Ok_inv in H. destruct H as (st & w2 & Hf & H).
      eapply IH; [|exact H]. apply (Inv_restart st).
      eapply for_iterations_invariant; [|exact Hf]. exact HI.
    + unfold ret in H. injection H as <- <- <-. exists nic. exact HI.
Qed.

End SearchInvariant.

(** ** [run] taken apart *)

Lemma quiet_calculate_cost (sol : list Z) : quiet (calculate_cost sol).
Proof.
  unfold calculate_cost. apply quiet_bind; [apply quiet_attr|].
  intros p. apply quiet_lift.
Qed.

Lemma costs_of_pure (nbs : list (list Z)) (w : world) :
  snd (costs_of nbs w) = w.
Proof.
  induction nbs as [|nb rest IH]; [reflexivity|].
  simpl. unfold bind at 1.
  pose proof (calculate_cost_pure nb w) as Hp.
  destruct (calculate_cost nb w) as [[c0|e|] w1]; simpl in Hp; subst w1;
    try reflexivity.
  unfold bind at 1. destruct (costs_of rest w) as [[cs|e|] w2]; simpl in IH;
    subst w2; reflexivity.
Qed.

(** The mean cost that [initial_temperature] stores. *)
Lemma initial_temperature_Ok_inv (fuel : nat) (sol : list Z) (w w1 : world) :
  initial_temperature fuel sol w = (Ok tt, w1) ->
  exists (nbs : list (list Z)) (costs : list Z) (wn : world),
    generate_neighbors fuel sol w = (Ok nbs, wn)
    /\ costs_of nbs wn = (Ok costs, wn)
    /\ w1 = mkWorld (set_temperature
                       match costs with
                       | [] => 1%R
                       | _ :: _ => (IZR (sumZ costs) / IZR (len costs))%R
                       end (self w))
                    (random_state wn) (acceptance_log w).
Proof.
  intros H. unfold initial_temperature in H.
  apply bind_Ok_inv in H. destruct H as (nbs & wn & Hg & H).
  apply bind_Ok_inv in H. destruct H as (costs & wc & Hc & H).
  pose proof (costs_of_pure nbs wn) as Hpure. rewrite Hc in Hpure. simpl in Hpure.
  subst wc.
  destruct (quiet_Ok _ _ _ _ (quiet_generate_neighbors fuel sol) Hg) as [Hself Hlog].
  exists nbs, costs, wn. split; [exact Hg|]. split; [exact Hc|].
  destruct costs as [|c0 cs]; unfold modify_self in H; injection H as <-;
    rewrite Hself, Hlog; reflexivity.
Qed.

Lemma read_file_Ok_inv (f : instance_file) (w w0 : world)
  (inst : Z * Z * list Z * list Z) :
  read_file f w = (Ok inst, w0) ->
  length (file_profit f) = length (file_weight f)
  /\ inst = (file_capacity f, len (file_profit f), file_profit f, file_weight f)
  /\ w0 = mkWorld (set_instance (file_capacity f) (len (file_profit f))
                                (file_profit f) (file_weight f) (self w))
                  (random_state w) (acceptance_log w).
Proof.
  unfold read_file, bind, modify_self.
  destruct (len (file_profit f) =? len (file_weight f)) eqn:E; simpl; [|discriminate].
  intros H. injection H as <- <-. apply Z.eqb_eq in E. unfold len in E.
  split; [lia|]. split; reflexivity.
Qed.

Lemma run_Ok_inv (fuel : nat) (f : instance_file) (w w' : world) (bs : list Z) (bc : Z) :
  run fuel f w = (Ok (bs, bc), w') ->
  exists (sol0 : list Z) (w0 w1 : world) (t : R),
    length (file_profit f) = length (file_weight f)
    /\ initial_solution_of f w = (Ok sol0, w0)
    /\ w0 = mkWorld (set_neighbors_amount
                       (Z.max 1 (Z.quot (15 * len (file_profit f)) 100))
                       (set_instance (file_capacity f) (len (file_profit f))
                                     (file_profit f) (file_weight f) (self w)))
                    (random_state w) (acceptance_log w)
    /\ admissible (file_capacity f) (file_weight f) sol0
    /\ initial_temperature fuel sol0 w0 = (Ok tt, w1)
    /\ self w1 = set_temperature t (self w0)
    /\ acceptance_log w1 = acceptance_log w
    /\ search fuel fuel sol0 (dot sol0 (file_profit f)) 0 w1 = (Ok (bs, bc), w').
Proof.
  intros H. unfold run in H.
  apply bind_Ok_inv in H. destruct H as (inst & wa & Hread & H).
  pose proof Hread as Hread'.
  apply read_file_Ok_inv in Hread'. destruct Hread' as (Hpw & -> & Hwa).
  cbv beta iota in H.
  apply bind_Ok_inv in H. destruct H as ([] & w0 & Hnum & H).
  assert (w0 = mkWorld (set_neighbors_amount
                          (Z.max 1 (Z.quot (15 * len (file_profit f)) 100))
                          (set_instance (file_capacity f) (len (file_profit f))
                                        (file_profit f) (file_weight f) (self w)))
                       (random_state w) (acceptance_log w)) as Hw0.
  { unfold calculate_number_of_neighbors, modify_self in Hnum.
    rewrite Hwa in Hnum. injection Hnum as <-. reflexivity. }
  apply bind_Ok_inv in H. destruct H as (sol0 & w0' & Hsol & H).
  assert (loaded (file_capacity f) (file_profit f) (file_weight f) (self w0)) as Hl.
  { rewrite Hw0. repeat split. }
  pose proof (generate_initial_solution_wp _ _ _ Hpw w0 Hl) as Hwp.
  unfold wp in Hwp. rewrite Hsol in Hwp. cbn [fst snd] in Hwp.
  destruct Hwp as [-> [Hadm _]].
  apply bind_Ok_inv in H. destruct H as ([] & w1 & Htemp & H).
  apply bind_Ok_inv in H. destruct H as (bc0 & w1' & Hcost & H).
  pose proof Htemp as Htemp'.
  apply initial_temperature_Ok_inv in Htemp'.
  destruct Htemp' as (nbs & costs & wn & _ & _ & Hw1).
  assert (loaded (file_capacity f) (file_profit f) (file_weight f) (self w1)) as Hl1.
  { rewrite Hw1. exact Hl. }
  rewrite (calculate_cost_eq _ _ _ Hpw sol0 w1 Hl1) in Hcost by apply Hadm.
  injection Hcost as <- <-.
  exists sol0, w0, w1. eexists.
  split; [exact Hpw|]. split.
  { unfold initial_solution_of. rewrite (bind_eq _ _ _ _ _ Hread). cbv beta iota.
    rewrite (bind_eq _ _ _ _ _ Hnum). exact Hsol. }
  split; [exact Hw0|]. split; [exact Hadm|]. split; [exact Htemp|].
  split; [rewrite Hw1; reflexivity|]. split; [rewrite Hw1, Hw0; reflexivity|].
  exact H.
Qed.

(** ** The best pair and the recorded improvements *)

Lemma StronglySorted_snoc (l : list Z) (a : Z) :
  StronglySorted Z.lt l -> Forall (fun x => x < a) l -> StronglySorted Z.lt (l ++ [a]).
Proof.
  induction 1 as [|x l Hs IH Hx]; intros Hl; simpl.
  - constructor; constructor.
  - inversion Hl as [|? ? Hxa Hla]; subst. constructor; [apply IH; exact Hla|].
    apply Forall_app. split; [exact Hx|]. constructor; [exact Hxa|constructor].
Qed.

Lemma combine_snoc {A B : Type} (l : list A) (l' : list B) (a : A) (b : B) :
  length l = length l' -> combine (l ++ [a]) (l' ++ [b]) = combine l l' ++ [(a, b)].
Proof.
  revert l'. induction l as [|x l IH]; intros [|y l'] H; simpl in H; try discriminate.
  - reflexivity.
  - simpl. rewrite IH by lia. reflexivity.
Qed.

Section Trace.

Variables (p sol0 : list Z) (c0 : Z) (sols0 : list (list Z)) (costs0 : list Z).

Lemma trace_cooling (st : locals) (s : SimulatedAnnealing) (t : R) :
  trace_extends p sol0 c0 sols0 costs0 st s ->
  trace_extends p sol0 c0 sols0 costs0 st (set_temperature t s).
Proof. exact (fun H => H). Qed.

Lemma trace_improve (st : locals) (s : SimulatedAnnealing) (nb : list Z) (nc : Z)
  (p' : list Z) :
  trace_extends p sol0 c0 sols0 costs0 st s ->
  profit s = Some p' -> sum_products nb p' = Ok nc -> nc > best_cost st ->
  trace_extends p sol0 c0 sols0 costs0 (mkLocals nb nc nb nc 0) (record_best nb nc s).
Proof.
  intros (Hp & Hc0 & sols & costs & Hs & Hc & Hlen & Hsorted & Hall & Hcosts & Hlast)
         Hp' Hnc Hgt.
  assert (p' = p) as -> by congruence.
  split; [exact Hp|]. split; [simpl; lia|].
  exists (sols ++ [nb]), (costs ++ [nc]). simpl.
  split; [rewrite Hs, app_assoc; reflexivity|].
  split; [rewrite Hc, app_assoc; reflexivity|].
  split; [rewrite !length_app; simpl; lia|].
  split.
  { apply StronglySorted_snoc; [exact Hsorted|].
    eapply Forall_impl; [|exact Hall]. simpl. intros x Hx. lia. }
  split.
  { apply Forall_app. split.
    - eapply Forall_impl; [|exact Hall]. simpl. intros x Hx. lia.
    - constructor; [lia|constructor]. }
  split.
  { apply Forall2_app; [exact Hcosts|]. constructor; [exact Hnc|constructor]. }
  rewrite combine_snoc by exact Hlen. apply last_last.
Qed.

Lemma trace_accept (st : locals) (s : SimulatedAnnealing) (nb : list Z) (nc : Z)
  (p' : list Z) :
  trace_extends p sol0 c0 sols0 costs0 st s ->
  profit s = Some p' -> sum_products nb p' = Ok nc -> nc <= best_cost st ->
  trace_extends p sol0 c0 sols0 costs0
    (mkLocals nb nc (best_solution st) (best_cost st) (no_improve_count st + 1)) s.
Proof. intros H _ _ _. exact H. Qed.

Lemma trace_restart (st : locals) (s : SimulatedAnnealing) :
  trace_extends p sol0 c0 sols0 costs0 st s ->
  trace_extends p sol0 c0 sols0 costs0
    (mkLocals (best_solution st) (best_cost st) (best_solution st) (best_cost st)
              (no_improve_count st)) s.
Proof. exact (fun H => H). Qed.

End Trace.

(** What [run] leaves in the two vectors, and how the returned pair relates
    to them and to the initial solution. *)
Lemma run_trace (fuel : nat) (f : instance_file) (w w' : world) (bs : list Z) (bc : Z) :
  run fuel f w = (Ok (bs, bc), w') ->
  exists (sol0 : list Z) (w0 : world) (nic : Z),
    initial_solution_of f w = (Ok sol0, w0)
    /\ sum_products sol0 (file_profit f) = Ok (dot sol0 (file_profit f))
    /\ trace_extends (file_profit f) sol0 (dot sol0 (file_profit f))
         (best_solutions_vector (self w)) (best_cost_vector (self w))
         (mkLocals bs bc bs bc nic) (self w').
Proof.
  intros H. apply run_Ok_inv in H.
  destruct H as (sol0 & w0 & w1 & t & Hpw & Hinit & Hw0 & Hadm & _ & Hw1 & _ & Hsearch).
  assert (length sol0 = length (file_weight f)) as Hlen by apply Hadm.
  destruct (search_invariant
              (trace_extends (file_profit f) sol0 (dot sol0 (file_profit f))
                 (best_solutions_vector (self w)) (best_cost_vector (self w)))
              (trace_cooling _ _ _ _ _) (trace_improve _ _ _ _ _)
              (trace_accept _ _ _ _ _) (trace_restart _ _ _ _ _)
              fuel fuel sol0 bs (dot sol0 (file_profit f)) bc 0 w1 w') as [nic Hnic].
  - rewrite Hw1, Hw0. split; [reflexivity|]. split; [simpl; lia|].
    exists [], []. simpl. rewrite !app_nil_r.
    repeat split; constructor.
  - exact Hsearch.
  - exists sol0, w0, nic. split; [exact Hinit|].
    split; [apply sum_products_dot; lia|exact Hnic].
Qed.

(** X1. Whenever [run] returns, the returned cost is at least the cost of
    the initial solution built by its first statements: the search never
    hands back something worse than its greedy start. *)
Theorem run_never_worse_than_initial_solution
  (fuel : nat) (f : instance_file) (w : world) (bs : list Z) (bc : Z) :
  fst (run fuel f w) = Ok (bs, bc) ->
  exists (sol0 : list Z) (c0 : Z),
    fst (initial_solution_of f w) = Ok sol0
    /\ sum_products sol0 (file_profit f) = Ok c0
    /\ c0 <= bc.
Proof.
  intros H. destruct (run fuel f w) as [o w'] eqn:Hrun. simpl in H. subst o.
  destruct (run_trace fuel f w w' bs bc Hrun) as (sol0 & w0 & nic & Hinit & Hc0 & Htr).
  exists sol0, (dot sol0 (file_profit f)).
  split; [rewrite Hinit; reflexivity|]. split; [exact Hc0|].
  destruct Htr as (_ & Hle & _). exact Hle.
Qed.

Lemma run_never_worse_than_initial_solution_witness :
  fst (run 3 twin_items one_pass_world) = Ok ([1; 0], 5)
  /\ exists (sol0 : list Z) (c0 : Z),
       fst (initial_solution_of twin_items one_pass_world) = Ok sol0
       /\ sum_products sol0 (file_profit twin_items) = Ok c0
       /\ c0 <= 5.
Proof.
  split; [exact (proj1 run_twin_items)|].
  exact (run_never_worse_than_initial_solution 3 twin_items one_pass_world [1; 0] 5
           (proj1 run_twin_items)).
Defined.





(** ** The temperature along the search *)






(** ** Configurations that the loop does not survive, or never enters *)

(** X5. Without inner iterations ([iter_max <= 0]) a pass of the outer loop
    neither cools nor counts: once the loop condition holds it holds for
    ever, and the [while] of [run] exhausts every bound on its passes. *)
Theorem search_never_ends_without_inner_iterations
  (fuel passes : nat) (bs : list Z) (bc nic : Z) (t : R) (w : world) :
  temperature (self w) = Some t -> (t > T_min (self w))%R ->
  nic < no_improve_limit (self w) -> iter_max (self w) <= 0 ->
  search fuel passes bs bc nic w = (OutOfFuel, w).
Proof.
  intros Ht Hgt Hnic Himax. induction passes as [|passes IH]; [reflexivity|].
  rewrite (search_enter fuel passes bs bc nic t w Ht Hgt Hnic).
  replace (Z.to_nat (iter_max (self w))) with 0%nat by lia.
  exact IH.
Qed.

Lemma search_never_ends_without_inner_iterations_witness :
  temperature (self idle_world) = Some 5%R
  /\ (5 > T_min (self idle_world))%R
  /\ 0 < no_improve_limit (self idle_world)
  /\ iter_max (self idle_world) <= 0
  /\ search 7 1000 [1; 0] 5 0 idle_world = (OutOfFuel, idle_world).
Proof.
  assert (temperature (self idle_world) = Some 5%R) as Ht by reflexivity.
  assert (5 > T_min (self idle_world))%R as Hgt by (simpl; unfold Rgt; lra).
  assert (0 < no_improve_limit (self idle_world)) as Hnic by (simpl; lia).
  assert (iter_max (self idle_world) <= 0) as Himax by (simpl; lia).
  split; [exact Ht|]. split; [exact Hgt|]. split; [exact Hnic|]. split; [exact Himax|].
  exact (search_never_ends_without_inner_iterations 7 1000 [1; 0] 5 0 5 idle_world
           Ht Hgt Hnic Himax).
Defined.

Lemma search_cold (fuel passes : nat) (bs : list Z) (bc nic : Z) (t : R) (w : world) :
  temperature (self w) = Some t -> (t <= T_min (self w))%R ->
  search fuel (S passes) bs bc nic w = (Ok (bs, bc), w).
Proof.
  intros Ht Hle. simpl. unfold bind, get_temperature, attr, get_self. rewrite Ht.
  destruct (Rgt_dec t (T_min (self w))) as [Hgt|_]; [|reflexivity].
  unfold Rgt in Hgt. lra.
Qed.

(** X6. With a stagnation limit that is not positive, or a temperature
    floor at least as large as the mean cost of any neighborhood can be, the
    loop of [run] is never entered: a run that returns hands back the
    initial solution, records nothing and never asks for an acceptance. *)
Theorem run_returns_initial_solution_when_loop_is_closed
  (fuel : nat) (f : instance_file) (w : world) (bs : list Z) (bc : Z) :
  no_improve_limit (self w) <= 0
  \/ (temperature_bound (file_profit f) <= T_min (self w))%R ->
  fst (run fuel f w) = Ok (bs, bc) ->
  fst (initial_solution_of f w) = Ok bs
  /\ sum_products bs (file_profit f) = Ok bc
  /\ acceptance_log (snd (run fuel f w)) = acceptance_log w
  /\ best_cost_vector (self (snd (run fuel f w))) = best_cost_vector (self w)
  /\ best_solutions_vector (self (snd (run fuel f w))) = best_solutions_vector (self w).
Proof.
  intros Hclosed H. destruct (run fuel f w) as [o w'] eqn:Hrun. simpl in H. subst o.
  apply run_Ok_inv in Hrun.
  destruct Hrun as (sol0 & w0 & w1 & t & Hpw & Hinit & Hw0 & Hadm & Htemp & Hw1 & Hlog
                    & Hsearch).
  assert (temperature (self w1) = Some t) as Ht by (rewrite Hw1; reflexivity).
  assert (loaded (file_capacity f) (file_profit f) (file_weight f) (self w0)) as Hl.
  { rewrite Hw0. repeat split. }
  assert (t <= temperature_bound (file_profit f))%R as Hbound.
  { pose proof (initial_temperature_wp _ _ _ Hpw fuel sol0 w0 Hl Hadm) as Hwp.
    unfold wp in Hwp. rewrite Htemp in Hwp. cbn [fst snd] in Hwp.
    destruct Hwp as (_ & _ & t' & Ht' & Hle). congruence. }
  assert (search fuel fuel sol0 (dot sol0 (file_profit f)) 0 w1
          = (Ok (sol0, dot sol0 (file_profit f)), w1)) as Hexit.
  { destruct fuel as [|passes]; [discriminate Hsearch|].
    destruct Hclosed as [Hlimit|Hfloor].
    - apply (search_stagnant _ _ _ _ _ t); [exact Ht|].
      rewrite Hw1, Hw0. simpl. exact Hlimit.
    - apply (search_cold _ _ _ _ _ t); [exact Ht|].
      rewrite Hw1, Hw0. simpl. lra. }
  rewrite Hexit in Hsearch. injection Hsearch as <- <- <-.
  split; [rewrite Hinit; reflexivity|].
  split; [apply sum_products_dot; destruct Hadm as (_ & Hlen & _); lia|].
  simpl. split; [exact Hlog|]. rewrite Hw1, Hw0. split; reflexivity.
Qed.

Lemma run_returns_initial_solution_when_loop_is_closed_witness :
  (no_improve_limit (self unchecked_world) <= 0
   \/ (temperature_bound (file_profit twin_items) <= T_min (self unchecked_world))%R)
  /\ fst (run 3 twin_items unchecked_world) = Ok ([1; 0], 5)
  /\ fst (initial_solution_of twin_items unchecked_world) = Ok [1; 0]
  /\ acceptance_log (snd (run 3 twin_items unchecked_world))
     = acceptance_log unchecked_world.
Proof.
  assert (no_improve_limit (self unchecked_world) <= 0
          \/ (temperature_bound (file_profit twin_items)
               <= T_min (self unchecked_world))%R) as Hclosed.
  { left. simpl. lia. }
  split; [exact Hclosed|]. split; [exact run_unchecked|].
  destruct (run_returns_initial_solution_when_loop_is_closed 3 twin_items
              unchecked_world [1; 0] 5 Hclosed run_unchecked)
    as (Hinit & _ & Hlog & _).
  split; [exact Hinit|exact Hlog].
Defined.

(** ** The acceptance criterion *)

Lemma check_acceptance_improvement (c0 n0 : Z) (w : world) :
  n0 > c0 ->
  check_acceptance c0 n0 w
  = (Ok true,
     mkWorld (self w) (random_state w)
             (acceptance_log w ++ match temperature (self w) with
                                  | Some t => [t]
                                  | None => []
                                  end)).
Proof.
  intros Hgt. unfold check_acceptance, bind at 1, log_acceptance.
  apply Z.gtb_gt in Hgt. rewrite Hgt. reflexivity.
Qed.

Lemma check_acceptance_worse (c0 n0 : Z) (t : R) (w : world) :
  n0 <= c0 -> temperature (self w) = Some t -> t <> 0%R ->
  check_acceptance c0 n0 w
  = (Ok (if Rlt_dec (IZR (random_state w 0%nat mod 2 ^ 53) / IZR (2 ^ 53))
                    (exp (IZR (n0 - c0) / t))
         then true else false),
     mkWorld (self w) (fun k => random_state w (S k)) (acceptance_log w ++ [t])).
Proof.
  intros Hle Ht Hnz. unfold check_acceptance, bind at 1, log_acceptance.
  rewrite Ht. assert ((n0 >? c0) = false) as ->.
  { rewrite Z.gtb_ltb. apply Z.ltb_ge. exact Hle. }
  unfold bind at 1, get_temperature, attr. cbn [self]. rewrite Ht.
  destruct (Req_dec_T t 0) as [Hz|_]; [contradiction|]. reflexivity.
Qed.

(** X7. A candidate that costs strictly more than the current solution is
    accepted at every temperature, also at zero and before any temperature
    is set, without a draw from the generator and without touching the
    object. *)
Theorem check_acceptance_accepts_every_improvement (c0 n0 : Z) (w : world) :
  n0 > c0 ->
  fst (check_acceptance c0 n0 w) = Ok true
  /\ random_state (snd (check_acceptance c0 n0 w)) = random_state w
  /\ self (snd (check_acceptance c0 n0 w)) = self w.
Proof.
  intros Hgt. rewrite (check_acceptance_improvement c0 n0 w Hgt). repeat split.
Qed.

Lemma check_acceptance_accepts_every_improvement_witness :
  6 > 5
  /\ temperature (self frozen_world) = Some 0%R
  /\ fst (check_acceptance 5 6 frozen_world) = Ok true
  /\ random_state (snd (check_acceptance 5 6 frozen_world)) = random_state frozen_world.
Proof.
  assert (6 > 5) as Hgt by lia.
  split; [exact Hgt|]. split; [reflexivity|].
  destruct (check_acceptance_accepts_every_improvement 5 6 frozen_world Hgt)
    as (Hok & Hrng & _).
  split; [exact Hok|exact Hrng].
Defined.



(** X9. For a candidate that is not better than the current solution, and
    one and the same draw, acceptance is monotone: what is accepted at a
    positive temperature is accepted at every higher one, and a candidate
    of higher cost is accepted whenever one of lower cost is. *)
Theorem check_acceptance_monotone
  (c0 n0 n1 : Z) (t1 t2 : R) (w1 w2 : world) :
  n0 <= n1 -> n0 <= c0 ->
  temperature (self w1) = Some t1 -> temperature (self w2) = Some t2 ->
  (0 < t1 <= t2)%R ->
  random_state w1 0%nat = random_state w2 0%nat ->
  fst (check_acceptance c0 n0 w1) = Ok true ->
  fst (check_acceptance c0 n1 w2) = Ok true.
Proof.
  intros Hn Hle Ht1 Ht2 [Hpos Htt] Hdraw Hacc.
  destruct (Z_gt_le_dec n1 c0) as [Hgt|Hle1].
  - rewrite (check_acceptance_improvement c0 n1 w2 Hgt). reflexivity.
  - rewrite (check_acceptance_worse c0 n0 t1 w1 Hle Ht1) in Hacc by lra.
    rewrite (check_acceptance_worse c0 n1 t2 w2 Hle1 Ht2) by lra.
    simpl in *. rewrite <- Hdraw.
    destruct (Rlt_dec _ (exp (IZR (n0 - c0) / t1))) as [Hu|_]; [|discriminate].
    destruct (Rlt_dec _ (exp (IZR (n1 - c0) / t2))) as [_|Hnot]; [reflexivity|].
    exfalso. apply Hnot. eapply Rlt_le_trans; [exact Hu|].
    assert (IZR (n0 - c0) / t1 <= IZR (n1 - c0) / t2)%R as Harg.
    { assert (IZR (n0 - c0) <= IZR (n1 - c0))%R as H01 by (apply IZR_le; lia).
      assert (IZR (n1 - c0) <= 0)%R as H1 by (apply IZR_le; lia).
      assert (0 < / t1)%R by (apply Rinv_0_lt_compat; lra).
      assert (/ t2 <= / t1)%R by (apply Rinv_le_contravar; lra).
      unfold Rdiv.
      apply Rle_trans with (IZR (n1 - c0) * / t1)%R.
      - apply Rmult_le_compat_r; lra.
      - apply Rmult_le_compat_neg_l; assumption. }
    destruct Harg as [Hlt|Heq].
    + left. apply exp_increasing. exact Hlt.
    + right. rewrite Heq. reflexivity.
Qed.

Lemma check_acceptance_monotone_witness :
  temperature (self warm_world) = Some 5%R
  /\ temperature (self warmer_world) = Some 6%R
  /\ fst (check_acceptance 5 5 warm_world) = Ok true
  /\ fst (check_acceptance 5 5 warmer_world) = Ok true.
Proof.
  assert (temperature (self warm_world) = Some 5%R) as Ht1 by reflexivity.
  assert (temperature (self warmer_world) = Some 6%R) as Ht2 by reflexivity.
  assert (fst (check_acceptance 5 5 warm_world) = Ok true) as Hacc.
  { rewrite (check_acceptance_same_cost 5 5 warm_world Ht1) by lra. reflexivity. }
  split; [exact Ht1|]. split; [exact Ht2|]. split; [exact Hacc|].
  apply (check_acceptance_monotone 5 5 5 5 6 warm_world warmer_world);
    [lia|lia|exact Ht1|exact Ht2|lra|reflexivity|exact Hacc].
Defined.

(** ** The cooling schedule *)













(** ** The cost of a solution *)

Lemma calculate_cost_dot (sol p : list Z) (w : world) :
  profit (self w) = Some p -> (length sol <= length p)%nat ->
  calculate_cost sol w = (Ok (dot sol p), w).
Proof.
  intros Hp Hlen. unfold calculate_cost, bind, get_profit, attr, lift. rewrite Hp.
  rewrite sum_products_dot by exact Hlen. reflexivity.
Qed.

(** X14. [calculate_cost] never compares the length of the solution with
    the number of profits: a solution that is not longer is scored on its
    own positions only, a longer one raises [IndexError]; in both cases the
    world is left as it was. *)
Theorem calculate_cost_ignores_missing_positions (sol p : list Z) (w : world) :
  profit (self w) = Some p ->
  ((length sol <= length p)%nat -> calculate_cost sol w = (Ok (dot sol p), w))
  /\ ((length p < length sol)%nat -> calculate_cost sol w = (Raise IndexError, w)).
Proof.
  intros Hp. unfold calculate_cost, bind, get_profit, attr, lift. rewrite Hp.
  split; intros Hlen.
  - rewrite sum_products_dot by exact Hlen. reflexivity.
  - rewrite sum_products_short by exact Hlen. reflexivity.
Qed.

Lemma calculate_cost_ignores_missing_positions_witness :
  profit (self twin_world) = Some [5; 5]
  /\ calculate_cost [1] twin_world = (Ok 5, twin_world)
  /\ calculate_cost [1; 0; 1] twin_world = (Raise IndexError, twin_world).
Proof.
  assert (profit (self twin_world) = Some [5; 5]) as Hp by reflexivity.
  split; [exact Hp|]. split.
  - apply (proj1 (calculate_cost_ignores_missing_positions [1] [5; 5] twin_world Hp)).
    simpl. lia.
  - apply (proj2 (calculate_cost_ignores_missing_positions [1; 0; 1] [5; 5] twin_world Hp)).
    simpl. lia.
Defined.

(** X15. Flipping one position of a solution changes its cost by the profit
    of that item: selecting an item adds its profit, dropping it takes the
    profit away. *)
Theorem calculate_cost_after_a_flip
  (sol sol' p : list Z) (i : nat) (x pi : Z) (w : world) :
  profit (self w) = Some p -> (length sol <= length p)%nat ->
  nth_error sol i = Some x -> nth_error p i = Some pi ->
  setitem sol i (1 - x) = Ok sol' ->
  exists c0 : Z,
    fst (calculate_cost sol w) = Ok c0
    /\ fst (calculate_cost sol' w) = Ok (c0 + (1 - 2 * x) * pi).
Proof.
  intros Hp Hlen Hx Hpi Hset.
  destruct (setitem_Ok sol i (1 - x)) as (sol2 & Hset2 & Hlen2).
  { apply nth_error_Some. congruence. }
  assert (sol2 = sol') as -> by congruence.
  exists (dot sol p).
  rewrite (calculate_cost_dot sol p w Hp Hlen).
  rewrite (calculate_cost_dot sol' p w Hp) by lia.
  cbn [fst]. split; [reflexivity|].
  rewrite (setitem_dot sol sol' i (1 - x) x p Hset Hx).
  rewrite (nth_error_nth p i 0 Hpi). f_equal. ring.
Qed.

Lemma calculate_cost_after_a_flip_witness :
  profit (self twin_world) = Some [5; 5]
  /\ setitem [1; 0] 1 (1 - 0) = Ok [1; 1]
  /\ exists c0 : Z,
       fst (calculate_cost [1; 0] twin_world) = Ok c0
       /\ fst (calculate_cost [1; 1] twin_world) = Ok (c0 + (1 - 2 * 0) * 5).
Proof.
  assert (profit (self twin_world) = Some [5; 5]) as Hp by reflexivity.
  assert (setitem [1; 0] 1 (1 - 0) = Ok [1; 1]) as Hset by reflexivity.
  split; [exact Hp|]. split; [exact Hset|].
  apply (calculate_cost_after_a_flip [1; 0] [1; 1] [5; 5] 1 0 5 twin_world Hp);
    [simpl; lia|reflexivity|reflexivity|exact Hset].
Defined.

Lemma dot_nonneg (nb p : list Z) :
  binary nb -> Forall (fun x => 0 <= x) p -> 0 <= dot nb p.
Proof.
  intros Hb. revert p. induction Hb as [|x nb Hx _ IH]; intros p Hp; [simpl; lia|].
  destruct p as [|y p]; [simpl; lia|].
  inversion Hp as [|? ? Hy Hp']; subst. specialize (IH p Hp'). simpl.
  destruct Hx as [-> | ->]; lia.
Qed.

Lemma sumZ_abs_nonneg (p : list Z) :
  Forall (fun x => 0 <= x) p -> sumZ (map Z.abs p) = sumZ p.
Proof.
  induction 1 as [|x p Hx _ IH]; [reflexivity|]. simpl. rewrite IH. lia.
Qed.

(** X16. With profits that are not negative, the cost that [run] returns
    lies between zero and the sum of all profits. *)
Theorem run_returns_a_cost_within_the_total_profit
  (fuel : nat) (f : instance_file) (w : world) (bs : list Z) (bc : Z) :
  Forall (fun x => 0 <= x) (file_profit f) ->
  fst (run fuel f w) = Ok (bs, bc) ->
  0 <= bc <= sumZ (file_profit f).
Proof.
  intros Hp Hrun. destruct (run_result fuel f w bs bc Hrun) as (_ & _ & Hadm & <-).
  destruct Hadm as (Hb & _). split.
  - apply dot_nonneg; assumption.
  - rewrite <- (sumZ_abs_nonneg _ Hp). apply dot_bound. exact Hb.
Qed.

Lemma run_returns_a_cost_within_the_total_profit_witness :
  Forall (fun x => 0 <= x) (file_profit twin_items)
  /\ fst (run 3 twin_items one_pass_world) = Ok ([1; 0], 5)
  /\ 0 <= 5 <= sumZ (file_profit twin_items).
Proof.
  assert (Forall (fun x => 0 <= x) (file_profit twin_items)) as Hp.
  { simpl. repeat constructor; lia. }
  split; [exact Hp|]. split; [exact (proj1 run_twin_items)|].
  exact (run_returns_a_cost_within_the_total_profit 3 twin_items one_pass_world [1; 0] 5
           Hp (proj1 run_twin_items)).
Defined.

(** ** Reading the instance *)

(** X17. When the file holds a different number of profits and weights,
    [read_file] raises [ValueError] only after it has assigned the capacity,
    the profits, the weights and the amount; so [run] raises [ValueError] as
    well, with the mismatched instance left in the object, before any draw
    and before any temperature is set. *)
Theorem run_rejects_mismatched_lengths (fuel : nat) (f : instance_file) (w : world) :
  length (file_profit f) <> length (file_weight f) ->
  fst (run fuel f w) = Raise ValueError
  /\ loaded (file_capacity f) (file_profit f) (file_weight f)
            (self (snd (run fuel f w)))
  /\ temperature (self (snd (run fuel f w))) = temperature (self w)
  /\ random_state (snd (run fuel f w)) = random_state w.
Proof.
  intros Hne. unfold run, bind at 1, read_file, bind at 1, modify_self.
  assert ((len (file_profit f) =? len (file_weight f)) = false) as ->.
  { apply Z.eqb_neq. unfold len. lia. }
  simpl. repeat split.
Qed.

Lemma run_rejects_mismatched_lengths_witness :
  length (file_profit lopsided_items) <> length (file_weight lopsided_items)
  /\ fst (run 3 lopsided_items one_pass_world) = Raise ValueError
  /\ profit (self (snd (run 3 lopsided_items one_pass_world))) = Some [5; 5].
Proof.
  assert (length (file_profit lopsided_items) <> length (file_weight lopsided_items))
    as Hne by (simpl; lia).
  split; [exact Hne|].
  destruct (run_rejects_mismatched_lengths 3 lopsided_items one_pass_world Hne)
    as (Hraise & (_ & _ & Hp & _) & _).
  split; [exact Hraise|exact Hp].
Defined.

(** ** The initial solution *)

Section GreedyChoice.

Variables (c : Z) (p wt : list Z).

Lemma greedy_cons (i : nat) (rest : list nat) (sol : list Z) (weight0 wi : Z)
  (w : world) :
  loaded c p wt (self w) -> nth_error wt i = Some wi ->
  greedy (i :: rest) sol weight0 w
  = if weight0 + wi <=? c
    then bind (lift (setitem sol i 1)) (fun s => greedy rest s (weight0 + wi)) w
    else greedy rest sol weight0 w.
Proof.
  intros (Hc & _ & _ & Hw) Hn. cbn [greedy].
  unfold bind at 1, get_weight, attr. rewrite Hw.
  unfold bind at 1, lift at 1, getitem. rewrite Hn.
  unfold bind at 1, get_capacity, attr. rewrite Hc.
  destruct (weight0 + wi <=? c); reflexivity.
Qed.

(** The loop never clears a position, never loses weight, and leaves every
    item it has looked at either selected or too heavy for what is left. *)
Lemma greedy_grows (items : list nat) :
  forall (sol sol' : list Z) (weight0 : Z) (w w' : world),
    loaded c p wt (self w) -> Forall (fun x => 0 <= x) wt ->
    length sol = length wt -> dot sol wt = weight0 ->
    Forall (fun i => nth_error sol i = Some 0) items -> NoDup items ->
    greedy items sol weight0 w = (Ok sol', w') ->
    dot sol wt <= dot sol' wt
    /\ (forall j, nth_error sol j = Some 1 -> nth_error sol' j = Some 1)
    /\ (forall j wj, In j items -> nth_error wt j = Some wj ->
                     nth_error sol' j = Some 1 \/ c < dot sol' wt + wj).
Proof.
  induction items as [|i rest IH];
    intros sol sol' weight0 w w' Hl Hpos Hlen Hdot Hzero Hnd H.
  - simpl in H. unfold ret in H. injection H as <- <-.
    split; [lia|]. split; [trivial|]. intros j wj [].
  - inversion Hnd as [|? ? Hnotin Hnd']; subst.
    inversion Hzero as [|? ? Hi Hzero']; subst.
    assert (i < length sol)%nat as Hlt by (apply nth_error_Some; congruence).
    destruct (getitem_Ok wt i) as (wi & Hnw & _); [lia|].
    assert (0 <= wi) as Hwi.
    { rewrite Forall_forall in Hpos. apply Hpos. eapply nth_error_In. exact Hnw. }
    rewrite (greedy_cons i rest sol (dot sol wt) wi w Hl Hnw) in H.
    destruct (dot sol wt + wi <=? c) eqn:E.
    + destruct (setitem_Ok sol i 1 Hlt) as (sol1 & Hset & Hlen1).
      unfold bind, lift in H. rewrite Hset in H.
      assert (dot sol1 wt = dot sol wt + wi) as Hdot1.
      { rewrite (setitem_dot sol sol1 i 1 0 wt Hset Hi).
        rewrite (nth_error_nth wt i 0 Hnw). lia. }
      destruct (IH sol1 sol' (dot sol wt + wi) w w' Hl Hpos) as (Hle & Hkeep & Hmax);
        [lia|exact Hdot1| |exact Hnd'|exact H|].
      { apply Forall_forall. intros j Hj.
        rewrite (setitem_nth_error sol sol1 i j 1 Hset).
        destruct (Nat.eqb j i) eqn:Eji.
        - apply Nat.eqb_eq in Eji. subst j. contradiction.
        - rewrite Forall_forall in Hzero'. apply Hzero'. exact Hj. }
      split; [lia|]. split.
      * intros j Hj. apply Hkeep.
        rewrite (setitem_nth_error sol sol1 i j 1 Hset).
        destruct (Nat.eqb j i); [reflexivity|exact Hj].
      * intros j wj [<- | Hj] Hwj.
        -- left. apply Hkeep.
           rewrite (setitem_nth_error sol sol1 i i 1 Hset), Nat.eqb_refl. reflexivity.
        -- apply (Hmax j wj Hj Hwj).
    + destruct (IH sol sol' (dot sol wt) w w' Hl Hpos Hlen eq_refl Hzero' Hnd' H)
        as (Hle & Hkeep & Hmax).
      split; [exact Hle|]. split; [exact Hkeep|].
      intros j wj [<- | Hj] Hwj.
      * right. apply Z.leb_gt in E.
        assert (wj = wi) as -> by congruence. lia.
      * apply (Hmax j wj Hj Hwj).
Qed.

Hypothesis Hpw : length p = length wt.

Lemma generate_initial_solution_Ok_inv (sol : list Z) (w w' : world) :
  loaded c p wt (self w) -> generate_initial_solution w = (Ok sol, w') ->
  exists items : list nat,
    Permutation items (seq 0 (length wt))
    /\ greedy items (repeat 0 (length wt)) 0 w = (Ok sol, w').
Proof.
  intros Hl H. unfold generate_initial_solution in H.
  unfold bind at 1, get_amount, attr in H.
  destruct Hl as (Hc & Ha & Hp & Hw). rewrite Ha in H.
  assert (Z.to_nat (len p) = length wt) as En by (unfold len; lia).
  rewrite En in H.
  apply bind_Ok_inv in H. destruct H as (ks & w1 & Hk & H).
  pose proof (keyed_wp c p wt Hpw (seq 0 (length wt)) w) as Hwp.
  unfold wp in Hwp. rewrite Hk in Hwp. cbn [fst snd] in Hwp.
  destruct Hwp as [-> [Hks _]].
  { repeat split; assumption. }
  { apply Forall_forall. intros i Hi. apply in_seq in Hi. lia. }
  exists (map fst (sorted_desc ks)). split; [|exact H].
  rewrite <- Hks. apply Permutation_map. apply sorted_desc_perm.
Qed.

Lemma generate_initial_solution_maximal (sol : list Z) (w w' : world) :
  loaded c p wt (self w) -> Forall (fun x => 0 <= x) wt ->
  generate_initial_solution w = (Ok sol, w') ->
  forall j wj, nth_error wt j = Some wj ->
               nth_error sol j = Some 1 \/ c < dot sol wt + wj.
Proof.
  intros Hl Hpos H j wj Hwj.
  destruct (generate_initial_solution_Ok_inv sol w w' Hl H) as (items & Hperm & Hg).
  destruct (greedy_grows items (repeat 0 (length wt)) sol 0 w w' Hl Hpos)
    as (_ & _ & Hmax).
  - apply repeat_length.
  - apply dot_repeat_zero.
  - apply Forall_forall. intros i Hi.
    apply (Permutation_in _ Hperm) in Hi. apply in_seq in Hi.
    apply nth_error_repeat. lia.
  - eapply Permutation_NoDup; [apply Permutation_sym; exact Hperm|apply seq_NoDup].
  - exact Hg.
  - apply (Hmax j wj); [|exact Hwj].
    apply (Permutation_in _ (Permutation_sym Hperm)). apply in_seq.
    assert (j < length wt)%nat by (apply nth_error_Some; congruence). lia.
Qed.

End GreedyChoice.



(** X19. The initial solution is maximal: with weights that are not
    negative, no item that was left out still fits beside the selected
    ones. *)
Theorem initial_solution_leaves_no_room
  (c : Z) (p wt sol : list Z) (w w' : world) (j : nat) (wj : Z) :
  length p = length wt -> loaded c p wt (self w) ->
  Forall (fun x => 0 <= x) wt ->
  generate_initial_solution w = (Ok sol, w') ->
  nth_error sol j = Some 0 -> nth_error wt j = Some wj ->
  c < dot sol wt + wj.
Proof.
  intros Hpw Hl Hpos H Hj Hwj.
  destruct (generate_initial_solution_maximal c p wt Hpw sol w w' Hl Hpos H j wj Hwj)
    as [H1 | Hc]; [congruence|exact Hc].
Qed.

Lemma initial_solution_leaves_no_room_witness :
  length [5; 5] = length [1; 1]
  /\ loaded 1 [5; 5] [1; 1] (self twin_world)
  /\ Forall (fun x => 0 <= x) [1; 1]
  /\ generate_initial_solution twin_world = (Ok [1; 0], twin_world)
  /\ 1 < dot [1; 0] [1; 1] + 1.
Proof.
  assert (loaded 1 [5; 5] [1; 1] (self twin_world)) as Hl by (repeat split).
  assert (Forall (fun x => 0 <= x) [1; 1]) as Hpos by (repeat constructor; lia).
  assert (generate_initial_solution twin_world = (Ok [1; 0], twin_world)) as Hsol
    by reflexivity.
  split; [reflexivity|]. split; [exact Hl|]. split; [exact Hpos|]. split; [exact Hsol|].
  exact (initial_solution_leaves_no_room 1 [5; 5] [1; 1] [1; 0] twin_world twin_world
           1%nat 1 eq_refl Hl Hpos Hsol eq_refl eq_refl).
Defined.

(** ** Instances with an obvious optimum *)

Lemma initial_solution_of_eq (f : instance_file) (w : world) :
  length (file_profit f) = length (file_weight f) ->
  initial_solution_of f w
  = generate_initial_solution
      (mkWorld (set_neighbors_amount
                  (Z.max 1 (Z.quot (15 * len (file_profit f)) 100))
                  (set_instance (file_capacity f) (len (file_profit f))
                                (file_profit f) (file_weight f) (self w)))
               (random_state w) (acceptance_log w)).
Proof.
  intros Hlen.
  unfold initial_solution_of, read_file, calculate_number_of_neighbors, bind, modify_self.
  assert ((len (file_profit f) =? len (file_weight f)) = true) as ->.
  { apply Z.eqb_eq. unfold len. lia. }
  reflexivity.
Qed.

Lemma dot_le_sum (sol wt : list Z) :
  binary sol -> Forall (fun x => 0 <= x) wt -> dot sol wt <= sumZ wt.
Proof.
  intros Hb Hpos. rewrite <- (sumZ_abs_nonneg _ Hpos). apply dot_bound. exact Hb.
Qed.

Lemma dot_room (sol : list Z) :
  binary sol ->
  forall (wt : list Z) (j : nat) (wj : Z),
    Forall (fun x => 0 <= x) wt ->
    nth_error sol j = Some 0 -> nth_error wt j = Some wj ->
    dot sol wt + wj <= sumZ wt.
Proof.
  induction 1 as [|x sol Hx Hb IH]; intros wt j wj Hpos Hj Hwj.
  - destruct j; discriminate.
  - destruct wt as [|y wt]; [destruct j; discriminate|].
    inversion Hpos as [|? ? Hy Hpos']; subst.
    destruct j as [|j]; cbn [nth_error] in Hj, Hwj; cbn [dot sumZ fold_right].
    + injection Hj as ->. injection Hwj as ->.
      pose proof (dot_le_sum sol wt Hb Hpos'). unfold sumZ in *. lia.
    + pose proof (IH wt j wj Hpos' Hj Hwj). unfold sumZ in *.
      destruct Hx as [-> | ->]; lia.
Qed.

Lemma all_ones (sol : list Z) :
  forall n : nat,
    length sol = n -> (forall j, (j < n)%nat -> nth_error sol j = Some 1) ->
    sol = repeat 1 n.
Proof.
  induction sol as [|x sol IH]; intros n Hlen H; subst n; [reflexivity|].
  cbn [length repeat]. f_equal.
  - specialize (H 0%nat). cbn [nth_error length] in H.
    assert (Some x = Some 1) as E by (apply H; lia). congruence.
  - apply IH; [reflexivity|]. intros j Hj. apply (H (S j)). cbn [length]. lia.
Qed.

Lemma dot_repeat_one (p : list Z) : dot (repeat 1 (length p)) p = sumZ p.
Proof.
  induction p as [|y p IH]; [reflexivity|].
  cbn [length repeat dot sumZ fold_right]. rewrite IH. unfold sumZ. lia.
Qed.

Lemma nothing_fits (c : Z) (bs : list Z) :
  binary bs -> 0 <= c ->
  forall wt : list Z,
    length bs = length wt -> Forall (fun x => c < x) wt -> dot bs wt <= c ->
    bs = repeat 0 (length wt).
Proof.
  intros Hb Hc. induction Hb as [|x bs Hx Hb IH]; intros wt Hlen Hheavy Hdot.
  - destruct wt; [reflexivity|discriminate].
  - destruct wt as [|y wt]; [discriminate|].
    inversion Hheavy as [|? ? Hy Hheavy']; subst.
    cbn [dot] in Hdot. cbn [length repeat].
    assert (0 <= dot bs wt) as Hrest.
    { apply dot_nonneg; [exact Hb|].
      eapply Forall_impl; [|exact Hheavy']. simpl. intros a Ha. lia. }
    destruct Hx as [-> | ->]; [|lia].
    f_equal. apply IH; [simpl in Hlen; lia|exact Hheavy'|lia].
Qed.

Lemma run_heavy_items :
  fst (run 3 heavy_items unchecked_world) = Ok ([0; 0], 0).
Proof.
  change (wp (run 3 heavy_items) (fun o _ => o = Ok ([0; 0], 0)) unchecked_world).
  unfold run.
  run_step. run_step. run_step. run_step. run_step.
  apply (wp_search_stagnant _ _ _ _ _ (0 / 1)%R); tidy; [reflexivity|lia|].
  reflexivity.
Qed.

Lemma run_roomy_items :
  fst (run 3 roomy_items unchecked_world) = Ok ([1; 1], 10).
Proof.
  change (wp (run 3 roomy_items) (fun o _ => o = Ok ([1; 1], 10)) unchecked_world).
  unfold run.
  run_step. run_step. run_step. run_step. run_step.
  apply (wp_search_stagnant _ _ _ _ _ (5 / 1)%R); tidy; [reflexivity|lia|].
  reflexivity.
Qed.

(** X20. When every single item is heavier than a capacity that is not
    negative, a run that returns hands back the empty selection and the
    cost 0. *)
Theorem run_returns_the_empty_selection_when_nothing_fits
  (fuel : nat) (f : instance_file) (w : world) (bs : list Z) (bc : Z) :
  0 <= file_capacity f ->
  Forall (fun x => file_capacity f < x) (file_weight f) ->
  fst (run fuel f w) = Ok (bs, bc) ->
  bs = repeat 0 (length (file_weight f)) /\ bc = 0.
Proof.
  intros Hc Hheavy H.
  destruct (run_result fuel f w bs bc H) as (_ & _ & (Hb & Hlen & Hcap) & Hbc).
  assert (bs = repeat 0 (length (file_weight f))) as Hbs.
  { apply (nothing_fits (file_capacity f)); auto. }
  split; [exact Hbs|]. rewrite <- Hbc, Hbs. apply dot_repeat_zero.
Qed.

Lemma run_returns_the_empty_selection_when_nothing_fits_witness :
  0 <= file_capacity heavy_items
  /\ Forall (fun x => file_capacity heavy_items < x) (file_weight heavy_items)
  /\ fst (run 3 heavy_items unchecked_world) = Ok ([0; 0], 0)
  /\ [0; 0] = repeat 0 (length (file_weight heavy_items)) /\ 0 = 0.
Proof.
  assert (0 <= file_capacity heavy_items) as Hc by (simpl; lia).
  assert (Forall (fun x => file_capacity heavy_items < x) (file_weight heavy_items))
    as Hheavy by (simpl; repeat constructor; lia).
  split; [exact Hc|]. split; [exact Hheavy|]. split; [exact run_heavy_items|].
  exact (run_returns_the_empty_selection_when_nothing_fits 3 heavy_items unchecked_world
           [0; 0] 0 Hc Hheavy run_heavy_items).
Defined.

(** X21. When all items fit into the knapsack together (profits and weights
    not negative), a run that returns hands back the optimum: every item is
    selected and the cost is the sum of all profits. *)
Theorem run_is_optimal_when_everything_fits
  (fuel : nat) (f : instance_file) (w : world) (bs : list Z) (bc : Z) :
  Forall (fun x => 0 <= x) (file_profit f) ->
  Forall (fun x => 0 <= x) (file_weight f) ->
  sumZ (file_weight f) <= file_capacity f ->
  fst (run fuel f w) = Ok (bs, bc) ->
  bs = repeat 1 (length (file_weight f)) /\ bc = sumZ (file_profit f).
Proof.
  intros Hp Hw Hfit H.
  destruct (run_result fuel f w bs bc H) as (Hpw & _ & (Hb & _) & Hbc).
  destruct (run fuel f w) as [o w'] eqn:Hrun. simpl in H. subst o.
  destruct (run_trace fuel f w w' bs bc Hrun) as (sol0 & w0 & nic & Hinit & _ & Htr).
  rewrite (initial_solution_of_eq f w Hpw) in Hinit.
  match type of Hinit with
  | generate_initial_solution ?w1 = _ =>
      assert (loaded (file_capacity f) (file_profit f) (file_weight f) (self w1)) as Hl
        by (repeat split);
      pose proof (generate_initial_solution_wp _ _ _ Hpw w1 Hl) as Hwp;
      pose proof (generate_initial_solution_maximal _ _ _ Hpw sol0 w1 w0 Hl Hw Hinit)
        as Hmax
  end.
  unfold wp in Hwp. rewrite Hinit in Hwp. cbn [fst snd] in Hwp.
  destruct Hwp as [_ [(Hb0 & Hlen0 & _) _]].
  assert (sol0 = repeat 1 (length (file_weight f))) as ->.
  { apply all_ones; [exact Hlen0|]. intros j Hj.
    destruct (nth_error (file_weight f) j) as [wj|] eqn:Ewj;
      [|apply nth_error_None in Ewj; lia].
    destruct (nth_error sol0 j) as [x|] eqn:Ex;
      [|apply nth_error_None in Ex; lia].
    assert (x = 0 \/ x = 1) as [-> | ->].
    { unfold binary in Hb0. rewrite Forall_forall in Hb0. apply Hb0.
      eapply nth_error_In. exact Ex. }
    - exfalso. destruct (Hmax j wj Ewj) as [H1 | Hc]; [congruence|].
      pose proof (dot_room sol0 Hb0 (file_weight f) j wj Hw Ex Ewj). lia.
    - reflexivity. }
  destruct Htr as (_ & Hle & sols & costs & _ & _ & Hlen & _ & Hall & _ & Hlast).
  cbn [best_cost best_solution] in Hle, Hall, Hlast.
  rewrite <- Hpw, dot_repeat_one in Hle, Hall, Hlast.
  pose proof (dot_le_sum bs (file_profit f) Hb Hp) as Hup. rewrite Hbc in Hup.
  destruct costs as [|x costs].
  - destruct sols; [|discriminate]. simpl in Hlast. injection Hlast as <- <-.
    rewrite Hpw. split; reflexivity.
  - inversion Hall as [|? ? Hx _]; subst. lia.
Qed.

Lemma run_is_optimal_when_everything_fits_witness :
  Forall (fun x => 0 <= x) (file_profit roomy_items)
  /\ Forall (fun x => 0 <= x) (file_weight roomy_items)
  /\ sumZ (file_weight roomy_items) <= file_capacity roomy_items
  /\ fst (run 3 roomy_items unchecked_world) = Ok ([1; 1], 10)
  /\ [1; 1] = repeat 1 (length (file_weight roomy_items))
  /\ 10 = sumZ (file_profit roomy_items).
Proof.
  assert (Forall (fun x => 0 <= x) (file_profit roomy_items)) as Hp
    by (simpl; repeat constructor; lia).
  assert (Forall (fun x => 0 <= x) (file_weight roomy_items)) as Hw
    by (simpl; repeat constructor; lia).
  assert (sumZ (file_weight roomy_items) <= file_capacity roomy_items) as Hfit
    by (simpl; lia).
  split; [exact Hp|]. split; [exact Hw|]. split; [exact Hfit|].
  split; [exact run_roomy_items|].
  exact (run_is_optimal_when_everything_fits 3 roomy_items unchecked_world [1; 1] 10
           Hp Hw Hfit run_roomy_items).
Defined.

(** ** The program *)



(** ** The shape of a neighbor *)

Lemma repair_only_clears (fuel : nat) :
  forall (nb nb' : list Z) (weight0 : Z) (w w' : world),
    repair fuel nb weight0 w = (Ok nb', w') ->
    forall j, nth_error nb' j = Some 1 -> nth_error nb j = Some 1.
Proof.
  induction fuel as [|fuel IH]; intros nb nb' weight0 w w' H j Hj; [discriminate H|].
  cbn [repair] in H.
  apply bind_Ok_inv in H. destruct H as (c & w1 & _ & H).
  destruct (weight0 >? c).
  - destruct (indices_of_ones nb) as [|i0 rest].
    + unfold ret in H. injection H as <- <-. exact Hj.
    + apply bind_Ok_inv in H. destruct H as (i & w2 & _ & H).
      apply bind_Ok_inv in H. destruct H as (nb1 & w3 & Hset & H).
      apply bind_Ok_inv in H. destruct H as (wt & w4 & _ & H).
      apply bind_Ok_inv in H. destruct H as (wi & w5 & _ & H).
      unfold lift in Hset. injection Hset as Hset _.
      pose proof (IH _ _ _ _ _ H j Hj) as Hj1.
      rewrite (setitem_nth_error nb nb1 i j 0 Hset) in Hj1.
      destruct (Nat.eqb j i); [discriminate|exact Hj1].
  - unfold ret in H. injection H as <- <-. exact Hj.
Qed.

Lemma perturb_adds_at_most_one (fuel : nat) (sol nb : list Z) (w w' : world) :
  perturb fuel sol w = (Ok nb, w') ->
  exists i : nat,
    forall j, j <> i -> nth_error nb j = Some 1 -> nth_error sol j = Some 1.
Proof.
  intros H. unfold perturb in H.
  apply bind_Ok_inv in H. destruct H as (i & w1 & _ & H).
  apply bind_Ok_inv in H. destruct H as (x & w2 & _ & H).
  apply bind_Ok_inv in H. destruct H as (nb0 & w3 & Hset & H).
  apply bind_Ok_inv in H. destruct H as (wt & w4 & _ & H).
  apply bind_Ok_inv in H. destruct H as (weight0 & w5 & _ & H).
  unfold lift in Hset. injection Hset as Hset _.
  exists (Z.to_nat i). intros j Hji Hj.
  pose proof (repair_only_clears fuel _ _ _ _ _ H j Hj) as Hj0.
  rewrite (setitem_nth_error sol nb0 (Z.to_nat i) j (1 - x) Hset) in Hj0.
  destruct (Nat.eqb j (Z.to_nat i)) eqn:E; [|exact Hj0].
  apply Nat.eqb_eq in E. contradiction.
Qed.

Lemma collect_neighbors_add_at_most_one (fuel count : nat) (sol : list Z) :
  forall (acc nbs : list (list Z)) (w w' : world),
    Forall (fun nb => exists i : nat,
                forall j, j <> i -> nth_error nb j = Some 1 -> nth_error sol j = Some 1)
           acc ->
    collect_neighbors fuel count sol acc w = (Ok nbs, w') ->
    Forall (fun nb => exists i : nat,
                forall j, j <> i -> nth_error nb j = Some 1 -> nth_error sol j = Some 1)
           nbs.
Proof.
  induction count as [|count IH]; intros acc nbs w w' Hacc H; cbn [collect_neighbors] in H.
  - unfold ret in H. injection H as <- <-. exact Hacc.
  - apply bind_Ok_inv in H. destruct H as (nb & w1 & Hnb & H).
    eapply IH; [|exact H]. apply Forall_app. split; [exact Hacc|].
    constructor; [|constructor]. eapply perturb_adds_at_most_one. exact Hnb.
Qed.

(** X23. Whatever the object holds, every neighbor that [generate_neighbors]
    returns selects at most one item that the solution does not select: one
    position is flipped, and the repair loop only ever removes items. *)
Theorem generate_neighbors_add_at_most_one_item
  (fuel : nat) (sol : list Z) (nbs : list (list Z)) (w : world) :
  fst (generate_neighbors fuel sol w) = Ok nbs ->
  Forall (fun nb => exists i : nat,
              forall j, j <> i -> nth_error nb j = Some 1 -> nth_error sol j = Some 1)
         nbs.
Proof.
  intros H. destruct (generate_neighbors fuel sol w) as [o w'] eqn:Hg.
  simpl in H. subst o. unfold generate_neighbors in Hg.
  apply bind_Ok_inv in Hg. destruct Hg as (s & w1 & _ & Hg).
  eapply collect_neighbors_add_at_most_one; [|exact Hg]. constructor.
Qed.

Lemma generate_neighbors_add_at_most_one_item_witness :
  fst (generate_neighbors 3 [1; 0] neighborly_world) = Ok [[0; 1]]
  /\ Forall (fun nb => exists i : nat,
                forall j, j <> i -> nth_error nb j = Some 1
                          -> nth_error [1; 0] j = Some 1)
            [[0; 1]].
Proof.
  assert (fst (generate_neighbors 3 [1; 0] neighborly_world) = Ok [[0; 1]]) as Hg
    by reflexivity.
  split; [exact Hg|].
  exact (generate_neighbors_add_at_most_one_item 3 [1; 0] [[0; 1]] neighborly_world Hg).
Defined.

(** ** The initial temperature *)



